(** * cz-emoji: the question pipeline and the commit-message formatter

    A shallow embedding of [src/index.js] (and of its near-duplicate
    [src/unnamed/part_000], whose formatting functions, catalog builder and
    validation callback are textually the same).

    Conventions.
    - A JavaScript string is a [string]: a sequence of code units.  ASCII
      text is written as it is in the source; a glyph outside ASCII (an
      emoji) is carried as the bytes of its UTF-8 form.  No function below
      inspects such a glyph, it is only concatenated, so its encoding is
      immaterial except for [length] of a non-ASCII name.
    - A value that may be [undefined] is an [option]; [truthy] is
      JavaScript's truthiness on such a value and [tpl] is the conversion a
      template literal applies to it.
    - A promise that has settled is a [promise]: [Resolved] or [Rejected];
      [await] and [.then] are its bind. *)

From Stdlib Require Import Strings.String Strings.Ascii Lists.List Sorting.Sorted.
From Stdlib Require Import Bool Arith Lia QArith.
Import ListNotations.
Close Scope Q_scope.
Open Scope list_scope.
Open Scope string_scope.

(** ** JavaScript values *)

Module Js.

(** The line feed, written [\n] in the source. *)
Definition LF : string := String (ascii_of_nat 10) "".

(** [!!s] for a string. *)
Definition truthy_string (s : string) : bool :=
  match s with
  | "" => false
  | _ => true
  end.

(** [!!v] for a value that is a string or [undefined]. *)
Definition truthy (v : option string) : bool :=
  match v with
  | Some s => truthy_string s
  | None => false
  end.

(** [`${v}`] for a value that is a string or [undefined]. *)
Definition tpl (v : option string) : string :=
  match v with
  | Some s => s
  | None => "undefined"
  end.

(** [Array.prototype.join]. *)
Fixpoint join (sep : string) (xs : list string) : string :=
  match xs with
  | [] => ""
  | [x] => x
  | x :: rest => x ++ sep ++ join sep rest
  end.

(** [Array.prototype.includes] on an array of strings. *)
Definition includes (xs : list string) (x : string) : bool :=
  existsb (String.eqb x) xs.

(** The white space below 128: TAB, LF, VT, FF, CR and the space. *)
Definition is_space (c : ascii) : bool :=
  let n := nat_of_ascii c in
  ((9 <=? n)%nat && (n <=? 13)%nat) || (n =? 32)%nat.

(** The text made of the given code units. *)
Definition bytes (codes : list nat) : string :=
  fold_right (fun n s => String (ascii_of_nat n) s) "" codes.

(** The white space [String.prototype.trim] removes (WhiteSpace and
    LineTerminator of the language), each character as the code units that
    carry it here: TAB, LF, VT, FF, CR, the space, and U+00A0, U+1680,
    U+2000 to U+200A, U+2028, U+2029, U+202F, U+205F, U+3000 and U+FEFF in
    UTF-8. *)
Definition white_space : list string :=
  List.map bytes
    [ [9]; [10]; [11]; [12]; [13]; [32];
      [194; 160];
      [225; 154; 128];
      [226; 128; 128]; [226; 128; 129]; [226; 128; 130]; [226; 128; 131];
      [226; 128; 132]; [226; 128; 133]; [226; 128; 134]; [226; 128; 135];
      [226; 128; 136]; [226; 128; 137]; [226; 128; 138];
      [226; 128; 168]; [226; 128; 169]; [226; 128; 175];
      [226; 129; 159];
      [227; 128; 128];
      [239; 187; 191] ].

(** [s] without [token] at its start, when it starts with it. *)
Fixpoint strip_prefix (token s : string) : option string :=
  match token with
  | "" => Some s
  | String c token' =>
      match s with
      | String d s' => if Ascii.eqb c d then strip_prefix token' s' else None
      | "" => None
      end
  end.

(** [s] without the first of the tokens it starts with. *)
Fixpoint strip_first (tokens : list string) (s : string) : option string :=
  match tokens with
  | [] => None
  | token :: others =>
      match strip_prefix token s with
      | Some rest => Some rest
      | None => strip_first others s
      end
  end.

(** [s] without the tokens at its start, one after the other; a token has
    at least one code unit, so [fuel] of the length of [s] is enough. *)
Fixpoint strip_all (tokens : list string) (fuel : nat) (s : string) : string :=
  match fuel with
  | 0 => s
  | S fuel' =>
      match strip_first tokens s with
      | Some rest => strip_all tokens fuel' rest
      | None => s
      end
  end.

(** The code units in the opposite order. *)
Fixpoint reverse (s : string) : string :=
  match s with
  | String c rest => reverse rest ++ String c ""
  | "" => ""
  end.

(** [String.prototype.trimStart]. *)
Definition trim_start (s : string) : string :=
  strip_all white_space (String.length s) s.

(** [String.prototype.trimEnd]: the white space at the end is at the
    start of the text read backwards. *)
Definition trim_end (s : string) : string :=
  reverse (strip_all (List.map reverse white_space) (String.length s)
                     (reverse s)).

(** [String.prototype.trim]. *)
Definition trim (s : string) : string := trim_end (trim_start s).

(** [s] occurs in [t] as a contiguous run of code units
    ([String.prototype.includes]). *)
Fixpoint contains (s t : string) : bool :=
  prefix s t ||
  match t with
  | String _ rest => contains s rest
  | "" => false
  end.

(** A settled promise; also the outcome of a call that may throw, which
    inside [.then] rejects the chain: [Resolved] with what is returned,
    [Rejected] with what is thrown. *)
Inductive promise (A : Type) : Type :=
| Resolved (a : A)
| Rejected (reason : string).
Arguments Resolved {A} a.
Arguments Rejected {A} reason.

(** [p.then(f)] and [f(await p)]: a rejection passes [f] by. *)
Definition bind {A B : Type} (p : promise A) (f : A -> promise B) : promise B :=
  match p with
  | Resolved a => f a
  | Rejected reason => Rejected reason
  end.

End Js.

Import Js.

Notation "'let_await' x ':=' p 'in' k" := (Js.bind p (fun x => k))
  (at level 10, x name, p at level 200, k at level 200).

(** ** Data model *)

(** An entry of [config.types]. *)
Record ChangeType : Type := mkChangeType {
  ct_emoji : string;
  ct_code : string;
  ct_description : string;
  ct_name : string
}.

(** The [value] of a choice: what the [type] answer is bound to. *)
Record TypeValue : Type := mkTypeValue {
  emoji : string;
  name : string
}.

(** An element of the array [getEmojiChoices] returns. *)
Record ChoiceEntry : Type := mkChoiceEntry {
  ce_name : string;
  ce_value : TypeValue;
  ce_code : string
}.

(** An entry of [config.workflows]. *)
Record WorkflowTag : Type := mkWorkflowTag {
  wf_name : string;
  wf_value : string
}.

(** [config.questions]. *)
Record QuestionTexts : Type := mkQuestionTexts {
  qt_type : option string
}.

(** The object [loadConfig] resolves to: [defaultConfig] with the keys of
    the override spread over it.  [scopes] and [questions] have no default,
    and [projectDir] has one in [src/index.js] only. *)
Record Config : Type := mkConfig {
  types : list ChangeType;
  workflows : list WorkflowTag;
  projectDir : option string;
  symbol : bool;
  skipQuestions : list string;
  subjectMaxLength : nat;
  conventional : bool;
  scopes : option (list string);
  questions : option QuestionTexts
}.

(** The answers collected so far.  [type] is asked first and is never
    skipped; every other field may still be [undefined] when a callback
    reads the record. *)
Record Answers : Type := mkAnswers {
  a_type : TypeValue;
  a_scope : option string;
  a_issues : option string;
  a_workflow : option string;
  a_subject : option string;
  a_time : option string;
  a_comment : option string;
  a_body : option string
}.

(** [{ ...answers, subject }] *)
Definition with_subject (answers : Answers) (subject : string) : Answers :=
  {| a_type := a_type answers; a_scope := a_scope answers;
     a_issues := a_issues answers; a_workflow := a_workflow answers;
     a_subject := Some subject;
     a_time := a_time answers; a_comment := a_comment answers;
     a_body := a_body answers |}.

(** [{ ...answers, body }] *)
Definition with_body (answers : Answers) (body : string) : Answers :=
  {| a_type := a_type answers; a_scope := a_scope answers;
     a_issues := a_issues answers; a_workflow := a_workflow answers;
     a_subject := a_subject answers;
     a_time := a_time answers; a_comment := a_comment answers;
     a_body := Some body |}.

(** ** The answer formatter *)

(** [formatScope]: [scope ? `(${scope})` : ''] *)
Definition formatScope (scope : option string) : string :=
  if truthy scope then "(" ++ tpl scope ++ ")" else "".

(** [formatHead].  The source destructures [issues], [workflow], [time] and
    [comment] too and never reads them. *)
Definition formatHead (answers : Answers) (config : Config) : string :=
  let type := a_type answers in
  let scope := a_scope answers in
  let subject := a_subject answers in
  let prelude :=
    if conventional config
    then name type ++ formatScope scope ++ ": " ++ emoji type
    else emoji type ++ " " ++ formatScope scope ++ " " in
  prelude ++ " " ++ tpl subject.

(** [filter]: keeps the truthy items of the array. *)
Definition filter (array : list (option string)) : list (option string) :=
  List.filter truthy array.

(** [formatLineItem] *)
Definition formatLineItem (issues : option string) (line : string) : string :=
  tpl issues ++ " " ++ line.

(** The sentinel of the workflow catalog. *)
Definition NONE : string := "[NONE]".

(** [formatBody].  [workflow != '[NONE]'] compares strings; a kept item is
    truthy, hence a string, and [join] renders it as it is. *)
Definition formatBody (answers : Answers) (config : Config) : string :=
  let issues := a_issues answers in
  let workflow := a_workflow answers in
  let body := a_body answers in
  let time := a_time answers in
  let comment := a_comment answers in
  let smartText :=
    join " " (map tpl (filter [
      if truthy workflow && negb (tpl workflow =? NONE)
        then Some ("#" ++ tpl workflow) else None;
      if truthy time then Some ("#time " ++ tpl time) else None;
      if truthy comment then Some ("#comment " ++ tpl comment) else None
    ])) in
  tpl body ++ " " ++ LF ++ " " ++ formatLineItem issues smartText.

(** ** Regular expressions

    The fragment of JavaScript's regular expressions that [jiraMatcher] is
    written in, with the backtracking matcher of the language: a quantifier
    is greedy and gives iterations back one at a time, a negative lookahead
    consumes nothing, [$] holds at the end of the input only (no [m] flag).
    A capture group matches as its body does; the captures are not read by
    [String.prototype.match] under the [g] flag. *)

Module Regex.

Inductive regex : Type :=
| Cls (ranges : list (ascii * ascii))        (* [a-bc-d...], also one character *)
| Seq (r1 r2 : regex)                        (* r1r2 *)
| Rep (lo : nat) (hi : option nat) (r : regex) (* r{lo,hi}, r+ = r{1,}, r? = r{0,1} *)
| Grp (r : regex)                            (* (r) *)
| NegLook (r : regex)                        (* (?!r) *)
| Eos.                                       (* $ *)

Definition in_range (c : ascii) (range : ascii * ascii) : bool :=
  let (lo, hi) := range in
  (nat_of_ascii lo <=? nat_of_ascii c)%nat && (nat_of_ascii c <=? nat_of_ascii hi)%nat.

Definition in_class (ranges : list (ascii * ascii)) (c : ascii) : bool :=
  existsb (in_range c) ranges.

(** What is left to match after an expression, given the input that
    remains; it answers with the input left after the whole match. *)
Definition cont : Type := string -> option string.

(** The iterations of a quantifier whose body is matched by [body].  One
    more iteration is tried first; when the rest of the match fails after
    it, the quantifier stops here, if [lo] iterations are done.  An
    iteration that consumes nothing is given up (the bodies of
    [jiraMatcher] are character classes and always consume), so [fuel]
    above the length of the input is never used up: see [rep_fuel]. *)
Fixpoint rep (body : string -> cont -> option string)
         (fuel lo : nat) (hi : option nat) (s : string) (k : cont) : option string :=
  match fuel with
  | 0 => None
  | S fuel' =>
      let again :=
        match hi with
        | Some 0 => None
        | _ =>
            body s (fun s' =>
              if (String.length s' <? String.length s)%nat
              then rep body fuel' (pred lo) (option_map pred hi) s' k
              else None)
        end in
      match again with
      | Some rest => Some rest
      | None => if (lo =? 0)%nat then k s else None
      end
  end.

Fixpoint run (r : regex) (s : string) (k : cont) {struct r} : option string :=
  match r with
  | Cls ranges =>
      match s with
      | String c s' => if in_class ranges c then k s' else None
      | "" => None
      end
  | Seq r1 r2 => run r1 s (fun s' => run r2 s' k)
  | Rep lo hi r1 => rep (run r1) (S (String.length s)) lo hi s k
  | Grp r1 => run r1 s k
  | NegLook r1 =>
      match run r1 s Some with
      | Some _ => None
      | None => k s
      end
  | Eos =>
      match s with
      | "" => k s
      | _ => None
      end
  end.

(** One attempt at the start of [s]: the input left after the match. *)
Definition exec (r : regex) (s : string) : option string := run r s Some.

(** The attempts of a global search, position after position.  [index] is
    the position of [s] in the whole input; after a match of [n] code
    units the next attempt is made [n] positions further, one position
    further when [n] is 0: [skip] counts the positions to pass over. *)
Fixpoint scan (r : regex) (s : string) (index skip : nat) : list (nat * string) :=
  match s with
  | String _ s' =>
      match skip with
      | S skip' => scan r s' (S index) skip'
      | 0 =>
          match exec r s with
          | Some rest =>
              let n := (String.length s - String.length rest)%nat in
              (index, substring 0 n s) :: scan r s' (S index) (pred n)
          | None => scan r s' (S index) 0
          end
      end
  | "" =>
      match skip, exec r s with
      | 0, Some _ => [(index, "")]
      | _, _ => []
      end
  end.

(** [s.match(r)] for [r] with the [g] flag: every match, or [null]. *)
Definition js_match (s : string) (r : regex) : option (list string) :=
  match scan r s 0 0 with
  | [] => None
  | found => Some (map snd found)
  end.

End Regex.

Import Regex.

(** ** The version-control context resolver *)

Definition chr (c : ascii) : regex := Cls [(c, c)].

(** [/((?!([A-Z0-9a-z]{1,10})-?$)[A-Z]{1}[A-Z0-9]+-\d+)/g] *)
Definition jiraMatcher : regex :=
  Grp (Seq (NegLook
              (Seq (Grp (Rep 1 (Some 10)
                           (Cls [("A", "Z"); ("0", "9"); ("a", "z")]%char)))
                   (Seq (Rep 0 (Some 1) (chr "-")) Eos)))
      (Seq (Rep 1 (Some 1) (Cls [("A", "Z")]%char))
      (Seq (Rep 1 None (Cls [("A", "Z"); ("0", "9")]%char))
      (Seq (chr "-")
           (Rep 1 None (Cls [("0", "9")]%char)))))).

(** What [execProm] resolves to. *)
Record ExecResult : Type := mkExecResult {
  stdout : string;
  stderr : string
}.

(** The sentinel default. *)
Definition no_jira_ticket : string := "no jira ticket".

(** [getGitBranch], given how [execProm('git rev-parse --abbrev-ref HEAD')]
    settles.  Indexing an array gives [undefined] out of range. *)
Definition getGitBranch (git : promise ExecResult) : promise (option string) :=
  let_await branch := git in
  let jiraTickets := js_match (stdout branch) jiraMatcher in
  Resolved
    match jiraTickets with
    | Some found => nth_error found (length found - 1)
    | None => Some no_jira_ticket
    end.

(** ** The catalog builder, the question pipeline and the session *)

(** The options both fuzzy indexes are built with. *)
Record FuseOptions : Type := mkFuseOptions {
  shouldSort : bool;
  threshold : Q;
  location : nat;
  distance : nat;
  maxPatternLength : nat;
  minMatchCharLength : nat;
  keys : list string
}.

(** What a [validate] callback returns: [true], or the message shown. *)
Inductive Validation : Type :=
| Accepted
| Refused (message : string).

(** The [source] callback of an autocomplete question, by the collection it
    searches; the query is [undefined] before anything is typed. *)
Inductive Source : Type :=
| TypeSource (search : option string -> promise (list ChoiceEntry))
| WorkflowSource (search : option string -> promise (list WorkflowTag)).

(** A question object; a property the source leaves out is [None]. *)
Record Question : Type := mkQuestion {
  q_type : string;
  q_name : string;
  q_message : string;
  q_source : option Source;
  q_when : option bool;
  q_default : option string;
  q_validate : option (string -> Validation);
  q_maxLength : option nat;
  q_filter : option (string -> Answers -> string)
}.

(** A question with the three properties every question has. *)
Definition question (type name message : string) : Question :=
  mkQuestion type name message None None None None None None.

(** The [validate] callback of the [issues] question. *)
Definition validate (input : string) : Validation :=
  if negb (truthy_string input)
  then Refused "Must specify issue IDs"
  else Accepted.

(** The object a [.czrc] file or a package manifest configures: the keys it
    has.  Spreading it over [defaultConfig] replaces those keys. *)
Record Override : Type := mkOverride {
  o_types : option (list ChangeType);
  o_workflows : option (list WorkflowTag);
  o_projectDir : option string;
  o_symbol : option bool;
  o_skipQuestions : option (list string);
  o_subjectMaxLength : option nat;
  o_conventional : option bool;
  o_scopes : option (list string);
  o_questions : option QuestionTexts
}.

(** What [readPkg()] resolves to, when it finds a manifest. *)
Record PkgUp (Json : Type) : Type := mkPkgUp {
  path : option string;
  packageJson : Json
}.
Arguments mkPkgUp {Json} path packageJson.
Arguments path {Json} p.
Arguments packageJson {Json} p.

(** What happens during a session, in order. *)
Inductive Event : Type :=
| Register (name : string)            (* cz.prompt.registerPrompt *)
| Prompt (questions : list Question)  (* cz.prompt *)
| Commit (message : string).          (* commit *)

(** A session: what happened, and how the promise chain settled. *)
Record Run : Type := mkRun {
  trace : list Event;
  settled : promise unit
}.

(** The modules the source requires and this repository does not hold. *)
Class Modules : Type := {
  (** [pad(text, length)] of the package [pad]. *)
  pad : string -> nat -> string;
  (** [new fuse(list, options).search(query)] of [fuse.js]. *)
  fuse_search : forall A : Type, list A -> FuseOptions -> string -> list A;
  (** [truncate(text, columns)] of [cli-truncate]; it throws when an
      argument has not the type it expects. *)
  truncate : option string -> option nat -> promise string;
  (** [wrap(text, columns)] of [wrap-ansi]. *)
  wrap : string -> option nat -> promise string;
  (** [path.dirname]. *)
  dirname : string -> string;
  (** [require('./lib/types')]. *)
  lib_types : list ChangeType;
  (** Parsed JSON; [JSON.parse] throws on malformed text; [obj.config] read
      as a configuration, and [obj.config['cz-emoji']] likewise. *)
  Json : Type;
  JSON_parse : string -> promise Json;
  prop_config : Json -> option Override;
  prop_config_cz_emoji : Json -> option Override
}.

Section Pipeline.

Context {modules : Modules}.

(** What the session meets outside the program. *)
Record World : Type := mkWorld {
  git : promise ExecResult;                   (* execProm('git rev-parse ...') *)
  readPkg : promise (option (PkgUp Json));    (* readPkg() *)
  readFile : string -> promise string;        (* fs.readFile(dir, 'utf8') *)
  columns : option nat;                       (* process.stdout.columns *)
  cz_prompt : list Question -> promise Answers; (* cz.prompt *)
  commit : string -> promise unit             (* commit *)
}.

(** [getEmojiChoices] *)
Definition getEmojiChoices (config : Config) : list ChoiceEntry :=
  let maxNameLength :=
    fold_left
      (fun maxLength type =>
         if (maxLength <? String.length (ct_name type))%nat
         then String.length (ct_name type) else maxLength)
      (types config) 0 in
  map (fun choice =>
         {| ce_name := pad (ct_name choice) maxNameLength ++ "  "
                       ++ ct_emoji choice ++ "  " ++ ct_description choice;
            ce_value :=
              {| emoji := if symbol config
                          then ct_emoji choice ++ " " else ct_code choice;
                 name := ct_name choice |};
            ce_code := ct_code choice |})
      (types config).

(** [{ ...defaultConfig, ...config }] *)
Definition spread (base : Config) (config : option Override) : Config :=
  match config with
  | None => base
  | Some o =>
      let pick {A : Type} (over : option A) (dflt : A) : A :=
        match over with Some v => v | None => dflt end in
      let pick_opt {A : Type} (over dflt : option A) : option A :=
        match over with Some v => Some v | None => dflt end in
      {| types := pick (o_types o) (types base);
         workflows := pick (o_workflows o) (workflows base);
         projectDir := pick_opt (o_projectDir o) (projectDir base);
         symbol := pick (o_symbol o) (symbol base);
         skipQuestions := pick (o_skipQuestions o) (skipQuestions base);
         subjectMaxLength := pick (o_subjectMaxLength o) (subjectMaxLength base);
         conventional := pick (o_conventional o) (conventional base);
         scopes := pick_opt (o_scopes o) (scopes base);
         questions := pick_opt (o_questions o) (questions base) |}
  end.

Definition fuzzyOptions : FuseOptions :=
  {| shouldSort := true;
     threshold := 0.4%Q;
     location := 0;
     distance := 100;
     maxPatternLength := 32;
     minMatchCharLength := 1;
     keys := ["name"; "code"] |}.

(** [(_, query) => Promise.resolve(query ? index.search(query) : list)] *)
Definition source {A : Type} (list : list A) (query : option string)
  : promise (List.list A) :=
  Resolved (if truthy query
            then fuse_search A list fuzzyOptions (tpl query)
            else list).

(** The first entry of the workflow catalog. *)
Definition none_workflow : WorkflowTag := {| wf_name := NONE; wf_value := NONE |}.

(** [createQuestions], given the value of the module variable
    [jiraTicket]; [with_default] says whether the [issues] question has
    the [default] property ([src/index.js]) or not ([part_000]). *)
Definition createQuestions_ (with_default : bool) (jiraTicket : option string)
           (config : Config) : list Question :=
  let choices := getEmojiChoices config in
  let workflows := none_workflow :: workflows config in
  [ {| q_type := "autocomplete";
       q_name := "type";
       q_message :=
         match questions config with
         | Some texts =>
             if truthy (qt_type texts) then tpl (qt_type texts)
             else "Select the type of change you're committing:"
         | None => "Select the type of change you're committing:"
         end;
       q_source := Some (TypeSource (source choices));
       q_when := None; q_default := None; q_validate := None;
       q_maxLength := None; q_filter := None |};
    {| q_type := match scopes config with Some _ => "list" | None => "input" end;
       q_name := "scope";
       q_message := "Specify a scope:";
       q_source := None;
       q_when := Some (negb (includes (skipQuestions config) "scope"));
       q_default := None; q_validate := None;
       q_maxLength := None; q_filter := None |};
    {| q_type := "input";
       q_name := "issues";
       q_message := "Jira Issue ID(s):";
       q_source := None; q_when := None;
       q_default := if with_default then jiraTicket else None;
       q_validate := Some validate;
       q_maxLength := None; q_filter := None |};
    question "input" "time" "Time spent (i.e. 3h 15m):";
    question "input" "comment" "Jira comment:";
    {| q_type := "autocomplete";
       q_name := "workflow";
       q_message := "Workflow command:";
       q_source := Some (WorkflowSource (source workflows));
       q_when := None; q_default := None; q_validate := None;
       q_maxLength := None; q_filter := None |};
    {| q_type := "maxlength-input";
       q_name := "subject";
       q_message := "Write a short description:";
       q_source := None; q_when := None; q_default := None; q_validate := None;
       q_maxLength := Some (subjectMaxLength config);
       q_filter := Some (fun subject answers =>
                           formatHead (with_subject answers subject) config) |};
    {| q_type := "input";
       q_name := "body";
       q_message := "Provide a longer description:";
       q_source := None;
       q_when := Some (negb (includes (skipQuestions config) "body"));
       q_default := None; q_validate := None; q_maxLength := None;
       q_filter := Some (fun body answers =>
                           formatBody (with_body answers body) config) |} ].

(** [format]: [answers.body || ''], [[head, body].filter(Boolean)].  What
    [truncate] or [wrap] throws, [format] throws. *)
Definition format (w : World) (answers : Answers) : promise string :=
  let_await head := truncate (a_subject answers) (columns w) in
  let_await body :=
    wrap (if truthy (a_body answers) then tpl (a_body answers) else "")
         (columns w) in
  Resolved (trim (join (LF ++ LF) (List.filter truthy_string [head; body]))).

(** *** Loading the configuration, [src/index.js] *)

Definition defaultConfig : Config :=
  {| types := lib_types;
     workflows := [];
     projectDir := Some "~/workspace/hanger";
     symbol := false;
     skipQuestions := [""];
     subjectMaxLength := 75;
     conventional := false;
     scopes := None;
     questions := None |}.

(** [obj => obj && obj.config]; [obj] is [null] when the file could not
    be read. *)
Definition getConfig (obj : option Json) : option Override :=
  match obj with
  | Some o => prop_config o
  | None => None
  end.

(** [readFromCzrc]: [.then(JSON.parse, () => null).then(getConfig)]. The
    second handler recovers a failed read; what [JSON.parse] throws is a
    rejection of the promise [.then] returns. *)
Definition readFromCzrc (w : World) (dir : string) : promise (option Override) :=
  let parsed :=
    match readFile w dir with
    | Resolved text => let_await obj := JSON_parse text in Resolved (Some obj)
    | Rejected _ => Resolved None
    end in
  let_await obj := parsed in
  Resolved (getConfig obj).

(** [readFromLocalCzrc] *)
Definition readFromLocalCzrc (w : World) : promise (option Override) :=
  let_await res := readPkg w in
  match res with
  | Some found =>
      if truthy (path found)
      then readFromCzrc w (dirname (tpl (path found)) ++ "/.czrc")
      else Resolved None
  | None => Resolved None
  end.

(** [loadConfig].  It assigns the module variable [jiraTicket], which
    [createQuestions] reads afterwards: the value is returned next to the
    configuration. *)
Definition loadConfig (w : World) : promise (option string * Config) :=
  let_await jiraTicket := getGitBranch (git w) in
  let_await config := readFromLocalCzrc w in
  Resolved (jiraTicket, spread defaultConfig config).

Definition createQuestions : option string -> Config -> list Question :=
  createQuestions_ true.

(** What [prompter] does first. *)
Definition registered : list Event :=
  [Register "autocomplete"; Register "maxlength-input"].

(** The chain [.then(createQuestions).then(cz.prompt).then(format)
    .then(commit)] after a configuration loader; nothing in it handles a
    rejection: a step that rejects or throws ends the chain, and the chain
    settles as the call of [commit] does when it gets there. *)
Definition session (w : World) (loaded : promise (option string * Config))
           (questions_of : option string -> Config -> list Question) : Run :=
  match loaded with
  | Rejected reason => {| trace := registered; settled := Rejected reason |}
  | Resolved (jiraTicket, config) =>
      let questions := questions_of jiraTicket config in
      match cz_prompt w questions with
      | Rejected reason =>
          {| trace := (registered ++ [Prompt questions])%list;
             settled := Rejected reason |}
      | Resolved answers =>
          match format w answers with
          | Rejected reason =>
              {| trace := (registered ++ [Prompt questions])%list;
                 settled := Rejected reason |}
          | Resolved message =>
              {| trace := (registered
                           ++ [Prompt questions; Commit message])%list;
                 settled := commit w message |}
          end
      end
  end.

(** [module.exports.prompter] *)
Definition prompter (w : World) : Run :=
  session w (loadConfig w) createQuestions.

(** *** The same, [src/unnamed/part_000]: no branch lookup, the
    configuration is read from the package manifest. *)

Definition defaultConfig_000 : Config :=
  {| types := lib_types;
     workflows := [];
     projectDir := None;
     symbol := false;
     skipQuestions := [""];
     subjectMaxLength := 75;
     conventional := false;
     scopes := None;
     questions := None |}.

(** [obj => obj && obj.config && obj.config['cz-emoji']] *)
Definition getConfig_000 (obj : option Json) : option Override :=
  match obj with
  | Some o => prop_config_cz_emoji o
  | None => None
  end.

(** [readFromPkg] *)
Definition readFromPkg_000 (w : World) : promise (option Override) :=
  let_await res := readPkg w in
  Resolved
    match res with
    | Some found => getConfig_000 (Some (packageJson found))
    | None => None
    end.

(** [loadConfig]; this variant has no [jiraTicket]. *)
Definition loadConfig_000 (w : World) : promise (option string * Config) :=
  let_await config := readFromPkg_000 w in
  Resolved (None, spread defaultConfig_000 config).

Definition createQuestions_000 : option string -> Config -> list Question :=
  createQuestions_ false.

Definition prompter_000 (w : World) : Run :=
  session w (loadConfig_000 w) createQuestions_000.

(** The question of a given name. *)
Definition question_named (name : string) (questions : list Question)
  : option Question :=
  find (fun q => q_name q =? name) questions.

End Pipeline.


(** ** The specification's wording, where a theorem compares it with the code *)

(** A field is present when it holds a non-empty string. *)
Definition present (v : option string) : bool :=
  match v with
  | Some s => negb (s =? "")
  | None => false
  end.

(** The tokens of the smart-commit suffix: ["#" + workflow] unless the
    workflow is missing or the sentinel, ["#time " + time] and
    ["#comment " + comment] when present. *)
Definition smart_tokens (workflow time comment : option string) : list string :=
  List.concat
    [ if present workflow && negb (tpl workflow =? "[NONE]")
        then ["#" ++ tpl workflow] else [];
      if present time then ["#time " ++ tpl time] else [];
      if present comment then ["#comment " ++ tpl comment] else [] ].

(** The suffix: the tokens, separated by one space. *)
Definition smart_suffix (workflow time comment : option string) : string :=
  join " " (smart_tokens workflow time comment).

(** The head line outside conventional mode as the specification words it:
    ["{type.emoji} {formatScope(scope)} {subject}"]. *)
Definition head_as_worded (type : TypeValue) (scope : option string)
           (subject : string) : string :=
  emoji type ++ " " ++ formatScope scope ++ " " ++ subject.

(** ** Inputs of the examples *)

Definition feature : ChangeType :=
  {| ct_emoji := "🌟"; ct_code := ":star2:";
     ct_description := "A new feature"; ct_name := "feature" |}.

Definition feature_value : TypeValue := {| emoji := "🌟"; name := "feature" |}.

Definition example_answers : Answers :=
  {| a_type := feature_value; a_scope := Some "api";
     a_issues := Some "ABC-1"; a_workflow := Some "[NONE]";
     a_subject := Some "add x"; a_time := Some "2h";
     a_comment := Some "done"; a_body := Some "fix bug" |}.

(** The same type, scope and subject, nothing else in common. *)
Definition other_answers : Answers :=
  {| a_type := feature_value; a_scope := Some "api";
     a_issues := Some "XYZ-9"; a_workflow := Some "testing";
     a_subject := Some "add x"; a_time := None;
     a_comment := Some ""; a_body := None |}.

(** No time, no comment, no workflow. *)
Definition plain_answers : Answers :=
  {| a_type := feature_value; a_scope := None;
     a_issues := Some "ABC-1"; a_workflow := Some "[NONE]";
     a_subject := Some "add x"; a_time := None;
     a_comment := Some ""; a_body := Some "fix bug" |}.

Definition example_config (conventional : bool) : Config :=
  {| types := [feature]; workflows := []; projectDir := None;
     symbol := true; skipQuestions := [""]; subjectMaxLength := 75;
     conventional := conventional; scopes := None; questions := None |}.

(** A stand-in for the required modules, right on the texts of the
    examples.  [pad] fills with spaces on the right.  [truncate] throws as
    [cli-truncate] does when the text is not a string or the width not a
    number, and cuts a text longer than the width.  [wrap] removes the
    white space at the ends of each line; no line of the examples is
    longer than the terminal is wide.  [dirname] is right for a path with
    a directory part.  The fuzzy index is not searched by any example.
    The built-in catalog is the one type [feature].  [JSON.parse] knows two
    texts, [{}] and the JSON of an object whose [config] has an empty
    [types], and throws on any other, as it does on [{ oops]. *)
Fixpoint spaces (n : nat) : string :=
  match n with
  | 0 => ""
  | S n' => " " ++ spaces n'
  end.

Definition pad_right (text : string) (length : nat) : string :=
  text ++ spaces (length - String.length text).

Definition truncate_end (text : option string) (columns : option nat)
  : promise string :=
  match text, columns with
  | None, _ => Rejected "TypeError: Expected `input` to be a string"
  | Some _, None => Rejected "TypeError: Expected `columns` to be a number"
  | Some t, Some 0 => Resolved ""
  | Some t, Some 1 => Resolved "…"
  | Some t, Some (S least) =>
      Resolved (if (String.length t <=? S least)%nat then t
                else substring 0 least t ++ "…")
  end.

Fixpoint split_lines (s : string) : list string :=
  match s with
  | "" => [""]
  | String c rest =>
      if Ascii.eqb c (ascii_of_nat 10) then "" :: split_lines rest
      else match split_lines rest with
           | line :: others => String c line :: others
           | [] => [String c ""]
           end
  end.

Definition wrap_lines (text : string) (columns : option nat) : promise string :=
  Resolved (join LF (map trim (split_lines text))).

Fixpoint dirname_of (p : string) : string :=
  match p with
  | "" => ""
  | String c rest => if contains "/" rest then String c (dirname_of rest) else ""
  end.

Definition no_types : Override :=
  mkOverride (Some []) None None None None None None None None.

(** The double quote. *)
Definition quote : string := String (ascii_of_nat 34) "".

(** The text of a [.czrc] whose [config] has [types] and nothing in it. *)
Definition czrc_no_types : string :=
  "{" ++ quote ++ "config" ++ quote ++ ":{"
      ++ quote ++ "types" ++ quote ++ ":[]}}".

Definition example_modules : Modules :=
  {| pad := pad_right;
     fuse_search := fun A list _ _ => list;
     truncate := truncate_end;
     wrap := wrap_lines;
     dirname := dirname_of;
     lib_types := [feature];
     Json := option Override;
     JSON_parse := fun text =>
       if text =? "{}" then Resolved None
       else if text =? czrc_no_types then Resolved (Some no_types)
       else Rejected "SyntaxError";
     prop_config := fun obj => obj;
     prop_config_cz_emoji := fun obj => obj |}.

(** The answers the prompt engine of the examples hands back: the subject
    and the body are the strings their [filter] callbacks made. *)
Definition collected_answers : Answers :=
  {| a_type := feature_value; a_scope := Some "api";
     a_issues := Some "ABC-1"; a_workflow := Some "[NONE]";
     a_subject := Some "🌟 (api)  add x"; a_time := Some "2h";
     a_comment := Some "done";
     a_body := Some ("fix bug " ++ LF ++ " ABC-1 #time 2h #comment done") |}.

(** A session outside any repository: the branch lookup fails. *)
Definition world_without_repository : @World example_modules :=
  @mkWorld example_modules
    (Rejected "fatal: not a git repository")
    (Resolved None)
    (fun _ => Rejected "ENOENT")
    (Some 80)
    (fun _ => Resolved collected_answers)
    (fun _ => Resolved tt).

(** A session on branch [main] of a project whose [.czrc] configures an
    empty list of types; the user leaves the prompt, which has nothing to
    choose from. *)
Definition world_without_types : @World example_modules :=
  @mkWorld example_modules
    (Resolved (mkExecResult ("main" ++ LF) ""))
    (Resolved (Some (mkPkgUp (Some "/repo/package.json") (@None Override))))
    (fun dir =>
       if dir =? "/repo/.czrc" then Resolved czrc_no_types
       else Rejected "ENOENT")
    (Some 80)
    (fun _ => Rejected "User force closed the prompt")
    (fun _ => Resolved tt).

(** What such a session loads. *)
Definition config_without_types : Config :=
  spread (@defaultConfig example_modules) (Some no_types).

(** ** What a pattern matches

    The relation the matcher decides.  [Lang r s s'] says that [r] matches
    a prefix of the input [s] and leaves [s']; an iteration of a quantifier
    consumes at least one code unit.  The order in which the matcher tries
    the alternatives is not part of it. *)

Fixpoint iter (n : nat) (R : string -> string -> Prop) (s s' : string) : Prop :=
  match n with
  | 0 => s' = s
  | S n' =>
      exists mid,
        R s mid /\ (String.length mid < String.length s)%nat /\ iter n' R mid s'
  end.

(** Some number of iterations between [lo] and [hi]. *)
Definition within (lo : nat) (hi : option nat) (R : string -> string -> Prop)
           (s s' : string) : Prop :=
  exists n,
    (lo <= n)%nat
    /\ match hi with Some h => (n <= h)%nat | None => True end
    /\ iter n R s s'.

Fixpoint Lang (r : regex) (s s' : string) : Prop :=
  match r with
  | Cls ranges => exists c, s = String c s' /\ in_class ranges c = true
  | Seq r1 r2 => exists mid, Lang r1 s mid /\ Lang r2 mid s'
  | Rep lo hi r1 => within lo hi (Lang r1) s s'
  | Grp r1 => Lang r1 s s'
  | NegLook r1 => s' = s /\ forall t, ~ Lang r1 s t
  | Eos => s = "" /\ s' = ""
  end.

(** Every code unit of [w] is in the class. *)
Fixpoint all_in (ranges : list (ascii * ascii)) (w : string) : bool :=
  match w with
  | String c w' => in_class ranges c && all_in ranges w'
  | "" => true
  end.

(** The classes of [jiraMatcher]. *)
Definition upper : list (ascii * ascii) := [("A", "Z")]%char.
Definition upper_digit : list (ascii * ascii) := [("A", "Z"); ("0", "9")]%char.
Definition digit : list (ascii * ascii) := [("0", "9")]%char.
Definition alnum : list (ascii * ascii) :=
  [("A", "Z"); ("0", "9"); ("a", "z")]%char.

(** An issue key: an upper-case letter, one or more upper-case letters or
    digits, a hyphen, one or more digits. *)
Definition key_shaped (v : string) : Prop :=
  exists u k d,
    v = String u (k ++ "-" ++ d)
    /\ in_class upper u = true
    /\ k <> "" /\ all_in upper_digit k = true
    /\ d <> "" /\ all_in digit d = true.

(** [v] is found somewhere in [out]. *)
Definition occurs (v out : string) : Prop :=
  exists pre post, out = pre ++ v ++ post.

(** The text goes on with a digit. *)
Definition next_is_digit (rest : string) : bool :=
  match rest with
  | String c _ => in_class digit c
  | "" => false
  end.

(** A session on branch [feature/ABC-123-fix] of a project without a
    readable [.czrc]. *)
Definition world_unreadable_czrc : @World example_modules :=
  @mkWorld example_modules
    (Resolved (mkExecResult ("feature/ABC-123-fix" ++ LF) ""))
    (Resolved (Some (mkPkgUp (Some "/repo/package.json") (@None Override))))
    (fun _ => Rejected "ENOENT")
    (Some 80)
    (fun _ => Resolved collected_answers)
    (fun _ => Resolved tt).

(** The same project with a [.czrc] that is not JSON. *)
Definition world_malformed_czrc : @World example_modules :=
  @mkWorld example_modules
    (Resolved (mkExecResult ("feature/ABC-123-fix" ++ LF) ""))
    (Resolved (Some (mkPkgUp (Some "/repo/package.json") (@None Override))))
    (fun dir => if dir =? "/repo/.czrc" then Resolved "{ oops" else Rejected "ENOENT")
    (Some 80)
    (fun _ => Resolved collected_answers)
    (fun _ => Resolved tt).

(** The same project without a [.czrc], for a user whose home directory
    has one that configures no type. *)
Definition world_home_czrc : @World example_modules :=
  @mkWorld example_modules
    (Resolved (mkExecResult ("feature/ABC-123-fix" ++ LF) ""))
    (Resolved (Some (mkPkgUp (Some "/repo/package.json") (@None Override))))
    (fun dir => if dir =? "~/.czrc" then Resolved czrc_no_types else Rejected "ENOENT")
    (Some 80)
    (fun _ => Resolved collected_answers)
    (fun _ => Resolved tt).

(** A session on branch [main] without a manifest: the user gives a type,
    issues and a subject, and no body. *)
Definition world_plain : @World example_modules :=
  @mkWorld example_modules
    (Resolved (mkExecResult ("main" ++ LF) ""))
    (Resolved None)
    (fun _ => Rejected "ENOENT")
    (Some 80)
    (fun _ => Resolved other_answers)
    (fun _ => Resolved tt).

(** The session of [world_plain] with an output that is not a terminal:
    [process.stdout.columns] is [undefined]. *)
Definition world_not_a_terminal : @World example_modules :=
  @mkWorld example_modules
    (Resolved (mkExecResult ("main" ++ LF) ""))
    (Resolved None)
    (fun _ => Rejected "ENOENT")
    None
    (fun _ => Resolved other_answers)
    (fun _ => Resolved tt).

(** An override that sets no key. *)
Definition empty_override : Override :=
  mkOverride None None None None None None None None None.

(** The first and the last code unit of a text. *)
Definition first_char (s : string) : option ascii :=
  match s with
  | String c _ => Some c
  | "" => None
  end.

Fixpoint last_char (s : string) : option ascii :=
  match s with
  | "" => None
  | String c "" => Some c
  | String _ rest => last_char rest
  end.

(** The text starts or ends with white space. *)
Definition space_at_edge (s : string) : bool :=
  match first_char s, last_char s with
  | Some c1, Some c2 => is_space c1 || is_space c2
  | _, _ => false
  end.

(** The ways a session can go: it stops before the prompt; it puts its
    questions and stops there, because the prompt engine rejects or because
    [format] throws on the answers; or it puts its questions, calls
    [commit] once with the message [format] returns, and settles as that
    call does. *)
Definition run_shape {modules : Modules} (w : World) (run : Run) : Prop :=
  (trace run = registered /\ exists e, settled run = Rejected e)
  \/ (exists questions e,
        trace run = (registered ++ [Prompt questions])%list
        /\ cz_prompt w questions = Rejected e
        /\ settled run = Rejected e)
  \/ (exists questions answers e,
        trace run = (registered ++ [Prompt questions])%list
        /\ cz_prompt w questions = Resolved answers
        /\ format w answers = Rejected e
        /\ settled run = Rejected e)
  \/ (exists questions answers message,
        trace run = (registered ++ [Prompt questions; Commit message])%list
        /\ cz_prompt w questions = Resolved answers
        /\ format w answers = Resolved message
        /\ settled run = commit w message).

(** No code unit of the text is an upper-case letter. *)
Fixpoint no_upper (s : string) : bool :=
  match s with
  | String c rest => negb (in_class upper c) && no_upper rest
  | "" => true
  end.

(** [{ ...config, projectDir }] *)
Definition with_projectDir (config : Config) (dir : option string) : Config :=
  {| types := types config; workflows := workflows config;
     projectDir := dir;
     symbol := symbol config; skipQuestions := skipQuestions config;
     subjectMaxLength := subjectMaxLength config;
     conventional := conventional config;
     scopes := scopes config; questions := questions config |}.

(** ** Properties of the answer formatter *)

Lemma append_assoc (a b c : string) : (a ++ b) ++ c = a ++ b ++ c.
Proof.
  induction a as [|x a IH]; simpl; [reflexivity | now rewrite IH].
Qed.

Lemma truthy_present (v : option string) : truthy v = present v.
Proof.
  destruct v as [[|c s]|]; reflexivity.
Qed.

Lemma formatScope_cases (scope : option string) :
  formatScope scope =
    match scope with
    | Some (String c s) => "(" ++ String c s ++ ")"
    | _ => ""
    end.
Proof.
  destruct scope as [[|c s]|]; reflexivity.
Qed.

(** C6, as amended: in conventional mode the head line is
    [name ++ formatScope scope ++ ": " ++ emoji ++ " " ++ subject]; otherwise
    it is [emoji ++ " " ++ formatScope scope ++ "  " ++ subject], with two
    spaces before the subject.  The two examples of the claim follow. *)
Theorem formatHead_shape :
  (forall type scope issues workflow subject time comment body config,
      formatHead (mkAnswers type scope issues workflow (Some subject)
                            time comment body) config
      = if conventional config
        then name type ++ formatScope scope ++ ": " ++ emoji type ++ " " ++ subject
        else emoji type ++ " " ++ formatScope scope ++ "  " ++ subject)
  /\ formatHead example_answers (example_config true) = "feature(api): 🌟 add x"
  /\ formatHead example_answers (example_config false) = "🌟 (api)  add x".
Proof.
  split; [|split; reflexivity].
  intros type scope issues workflow subject time comment body config.
  unfold formatHead; cbn [a_type a_scope a_subject tpl].
  destruct (conventional config); now rewrite !append_assoc.
Qed.

(** C6, the counterexample: on the claim's own example the head line of
    the code is not the string the general formula words, which has one
    space before the subject. *)
Lemma formatHead_not_as_worded :
  head_as_worded feature_value (Some "api") "add x" = "🌟 (api) add x"
  /\ formatHead example_answers (example_config false)
     <> head_as_worded feature_value (Some "api") "add x".
Proof.
  split; [reflexivity | discriminate].
Qed.

(** C9: two answer records that agree on type, scope and subject have the
    same head line, whatever their issues, workflow, time and comment (and
    body) are. *)
Theorem formatHead_reads_three_fields (a1 a2 : Answers) (config : Config) :
  a_type a1 = a_type a2 ->
  a_scope a1 = a_scope a2 ->
  a_subject a1 = a_subject a2 ->
  formatHead a1 config = formatHead a2 config.
Proof.
  intros Htype Hscope Hsubject.
  unfold formatHead.
  now rewrite Htype, Hscope, Hsubject.
Qed.

Lemma formatHead_reads_three_fields_witness :
  a_type example_answers = a_type other_answers
  /\ a_scope example_answers = a_scope other_answers
  /\ a_subject example_answers = a_subject other_answers
  /\ a_issues example_answers <> a_issues other_answers
  /\ a_workflow example_answers <> a_workflow other_answers
  /\ a_time example_answers <> a_time other_answers
  /\ a_comment example_answers <> a_comment other_answers
  /\ formatHead example_answers (example_config false)
     = formatHead other_answers (example_config false).
Proof.
  repeat (split; [reflexivity|]).
  repeat (split; [discriminate|]).
  apply (formatHead_reads_three_fields example_answers other_answers);
    reflexivity.
Defined.

(** The array the code filters and joins holds the tokens of the
    specification, in the same order. *)
Lemma smartText_refines (workflow time comment : option string) :
  join " " (map tpl (filter [
    if truthy workflow && negb (tpl workflow =? NONE)
      then Some ("#" ++ tpl workflow) else None;
    if truthy time then Some ("#time " ++ tpl time) else None;
    if truthy comment then Some ("#comment " ++ tpl comment) else None ]))
  = smart_suffix workflow time comment.
Proof.
  unfold smart_suffix, smart_tokens, filter, NONE.
  rewrite <- !truthy_present.
  destruct (truthy workflow && negb (tpl workflow =? "[NONE]"));
    destruct (truthy time); destruct (truthy comment); reflexivity.
Qed.

(** C7: with issues and body given, [formatBody] is the body, then space,
    line feed, space, then the issues, one space and the smart suffix: the
    present tokens among [#workflow] (left out for the sentinel [[NONE]]),
    [#time ...] and [#comment ...], separated by one space.  On the example
    of the claim the result has no [#[NONE]], and has [#time 2h] and
    [#comment done] after [ABC-1]. *)
Theorem formatBody_shape :
  (forall type scope issues workflow subject time comment body config,
      formatBody (mkAnswers type scope (Some issues) workflow subject
                            time comment (Some body)) config
      = body ++ " " ++ LF ++ " " ++ issues ++ " "
        ++ smart_suffix workflow time comment)
  /\ (forall config,
      formatBody example_answers config
      = "fix bug " ++ LF ++ " ABC-1 #time 2h #comment done"
      /\ contains "#[NONE]" (formatBody example_answers config) = false
      /\ contains "#time 2h" (formatBody example_answers config) = true
      /\ contains "#comment done" (formatBody example_answers config) = true
      /\ contains "ABC-1 #time 2h #comment done"
                  (formatBody example_answers config) = true).
Proof.
  split.
  - intros type scope issues workflow subject time comment body config.
    unfold formatBody, formatLineItem.
    cbn [a_issues a_workflow a_body a_time a_comment].
    now rewrite smartText_refines.
  - intros config. repeat split; reflexivity.
Qed.

(** C10: when workflow is the sentinel and time and comment are missing
    ([undefined] or empty), [formatBody] is the body, then space, line feed,
    space, then the issues and one trailing space. *)
Theorem formatBody_without_suffix (a : Answers) (config : Config)
        (body issues : string) :
  a_body a = Some body ->
  a_issues a = Some issues ->
  a_workflow a = Some "[NONE]" ->
  truthy (a_time a) = false ->
  truthy (a_comment a) = false ->
  formatBody a config = body ++ " " ++ LF ++ " " ++ issues ++ " ".
Proof.
  intros Hbody Hissues Hworkflow Htime Hcomment.
  unfold formatBody, formatLineItem.
  rewrite Hbody, Hissues, Hworkflow, Htime, Hcomment.
  reflexivity.
Qed.

Lemma formatBody_without_suffix_witness :
  a_body plain_answers = Some "fix bug"
  /\ a_issues plain_answers = Some "ABC-1"
  /\ a_workflow plain_answers = Some "[NONE]"
  /\ truthy (a_time plain_answers) = false
  /\ truthy (a_comment plain_answers) = false
  /\ formatBody plain_answers (example_config false)
     = "fix bug" ++ " " ++ LF ++ " " ++ "ABC-1" ++ " ".
Proof.
  repeat (split; [reflexivity|]).
  apply (formatBody_without_suffix plain_answers (example_config false));
    reflexivity.
Defined.

(** ** Properties of the catalog and of the questions *)

Section Questions.

Context {modules : Modules}.

(** The questions come in the order of the source. *)
Lemma createQuestions_names (with_default : bool) (jiraTicket : option string)
      (config : Config) :
  map q_name (createQuestions_ with_default jiraTicket config)
  = ["type"; "scope"; "issues"; "time"; "comment"; "workflow"; "subject"; "body"].
Proof.
  reflexivity.
Qed.

(** C1, as amended: in both variants the [issues] question has the
    validate callback; it refuses the empty string with the message
    [Must specify issue IDs] and accepts every other input, white space
    included; so every input that is not empty once trimmed is accepted. *)
Theorem validate_refuses_empty_only (with_default : bool)
        (jiraTicket : option string) (config : Config) (input : string) :
  option_map q_validate
    (question_named "issues" (createQuestions_ with_default jiraTicket config))
    = Some (Some validate)
  /\ validate "" = Refused "Must specify issue IDs"
  /\ (input <> "" -> validate input = Accepted)
  /\ (trim input <> "" -> validate input = Accepted).
Proof.
  split; [reflexivity|].
  split; [reflexivity|].
  assert (Hne : input <> "" -> validate input = Accepted).
  { destruct input as [|c s]; intros H; [now elim H | reflexivity]. }
  split; [exact Hne|].
  intros H. apply Hne. intros ->. now apply H.
Qed.

(** C4, as amended: the catalog has one choice per type, in order; the
    [value.name] of a choice is the name of its type, and its [value.emoji]
    is the glyph of the type followed by one space when [symbol] is true,
    the code of the type when it is false. *)
Theorem getEmojiChoices_values (config : Config) :
  List.length (getEmojiChoices config) = List.length (types config)
  /\ forall i choice,
      nth_error (getEmojiChoices config) i = Some choice ->
      exists type,
        nth_error (types config) i = Some type
        /\ name (ce_value choice) = ct_name type
        /\ emoji (ce_value choice)
           = if symbol config then ct_emoji type ++ " " else ct_code type.
Proof.
  unfold getEmojiChoices. split; [apply length_map|].
  intros i choice. rewrite nth_error_map.
  destruct (nth_error (types config) i) as [type|]; [|discriminate].
  intros [= <-]. exists type. now repeat split.
Qed.

(** C8: the [source] callbacks of the [type] and [workflow] questions,
    called with no query or with the empty query, resolve to the whole
    collection as it is: the choices of the catalog, and the workflows of
    the configuration after the sentinel.  This holds for an empty catalog
    as well. *)
Theorem source_without_query (with_default : bool)
        (jiraTicket : option string) (config : Config) :
  let questions := createQuestions_ with_default jiraTicket config in
  exists type_search workflow_search,
    option_map q_source (question_named "type" questions)
      = Some (Some (TypeSource type_search))
    /\ option_map q_source (question_named "workflow" questions)
      = Some (Some (WorkflowSource workflow_search))
    /\ type_search None = Resolved (getEmojiChoices config)
    /\ type_search (Some "") = Resolved (getEmojiChoices config)
    /\ workflow_search None = Resolved (none_workflow :: workflows config)
    /\ workflow_search (Some "") = Resolved (none_workflow :: workflows config)
    /\ hd_error (none_workflow :: workflows config)
       = Some {| wf_name := "[NONE]"; wf_value := "[NONE]" |}.
Proof.
  do 2 eexists. repeat split.
Qed.

End Questions.

Lemma validate_refuses_empty_only_witness :
  (" " <> "" /\ validate " " = Accepted)
  /\ (trim "ABC-1" <> "" /\ validate "ABC-1" = Accepted).
Proof.
  split.
  - split; [discriminate|].
    destruct (@validate_refuses_empty_only example_modules true None
                (example_config false) " ") as (_ & _ & Hnonempty & _).
    apply Hnonempty. discriminate.
  - split; [discriminate|].
    destruct (@validate_refuses_empty_only example_modules false None
                (example_config false) "ABC-1") as (_ & _ & _ & Htrimmed).
    apply Htrimmed. discriminate.
Defined.

(** C1, the counterexample: an input of white space is empty once trimmed,
    and the callback accepts it. *)
Lemma validate_accepts_blank :
  trim "  " = ""
  /\ validate "  " = Accepted
  /\ forall message, validate "  " <> Refused message.
Proof.
  repeat split; discriminate.
Qed.

Lemma getEmojiChoices_values_witness :
  nth_error (@getEmojiChoices example_modules (example_config false)) 0
    = Some {| ce_name := "feature  🌟  A new feature";
              ce_value := {| emoji := "🌟 "; name := "feature" |};
              ce_code := ":star2:" |}
  /\ exists type,
      nth_error (types (example_config false)) 0 = Some type
      /\ name {| emoji := "🌟 "; name := "feature" |} = ct_name type
      /\ emoji {| emoji := "🌟 "; name := "feature" |}
         = if symbol (example_config false)
           then ct_emoji type ++ " " else ct_code type.
Proof.
  split; [reflexivity|].
  apply (proj2 (@getEmojiChoices_values example_modules (example_config false))
               0 (mkChoiceEntry "feature  🌟  A new feature"
                                (mkTypeValue "🌟 " "feature") ":star2:")).
  reflexivity.
Defined.

(** C4, the counterexample: with [symbol] true the [value.emoji] of the
    choice made from [feature] is the glyph and a space, not the glyph. *)
Lemma symbol_choice_has_trailing_space :
  symbol (example_config false) = true
  /\ types (example_config false) = [feature]
  /\ map (fun choice => emoji (ce_value choice))
         (@getEmojiChoices example_modules (example_config false))
     = ["🌟 "]
  /\ "🌟 " <> ct_emoji feature.
Proof.
  repeat split; discriminate.
Qed.

(** ** Properties of the matcher *)

(** The matcher treats a continuation by its values. *)
Lemma rep_ext (body : string -> cont -> option string) :
  (forall s k1 k2, (forall s', k1 s' = k2 s') -> body s k1 = body s k2) ->
  forall fuel lo hi s k1 k2,
    (forall s', k1 s' = k2 s') ->
    rep body fuel lo hi s k1 = rep body fuel lo hi s k2.
Proof.
  intros Hbody fuel.
  induction fuel as [|fuel IH]; intros lo hi s k1 k2 Hk; simpl; [reflexivity|].
  rewrite (Hk s).
  assert (Hagain :
    body s (fun s' => if (String.length s' <? String.length s)%nat
                      then rep body fuel (pred lo) (option_map pred hi) s' k1
                      else None)
    = body s (fun s' => if (String.length s' <? String.length s)%nat
                        then rep body fuel (pred lo) (option_map pred hi) s' k2
                        else None)).
  { apply Hbody. intros s'.
    destruct (String.length s' <? String.length s)%nat; [now apply IH | reflexivity]. }
  destruct hi as [[|hi]|]; try reflexivity; now rewrite Hagain.
Qed.

Lemma run_ext (r : regex) :
  forall s k1 k2, (forall s', k1 s' = k2 s') -> run r s k1 = run r s k2.
Proof.
  induction r as [ranges | r1 IH1 r2 IH2 | lo hi r1 IH1 | r1 IH1 | r1 IH1 | ];
    intros s k1 k2 Hk.
  - simpl. destruct s as [|c s]; [reflexivity|]. now rewrite Hk.
  - simpl. apply IH1. intros s'. now apply IH2.
  - exact (rep_ext (run r1) IH1 (S (String.length s)) lo hi s k1 k2 Hk).
  - simpl. now apply IH1.
  - simpl. now rewrite Hk.
  - simpl. destruct s; [apply Hk | reflexivity].
Qed.

(** Fuel above the length of the input is never used up: any two such
    amounts give the same answer. *)
Lemma rep_fuel (r : regex) :
  forall fuel1 fuel2 lo hi s k,
    (String.length s < fuel1)%nat ->
    (String.length s < fuel2)%nat ->
    rep (run r) fuel1 lo hi s k = rep (run r) fuel2 lo hi s k.
Proof.
  induction fuel1 as [|fuel1 IH]; intros fuel2 lo hi s k H1 H2; [lia|].
  destruct fuel2 as [|fuel2]; [lia|]. simpl.
  assert (Hagain :
    run r s (fun s' => if (String.length s' <? String.length s)%nat
                       then rep (run r) fuel1 (pred lo) (option_map pred hi) s' k
                       else None)
    = run r s (fun s' => if (String.length s' <? String.length s)%nat
                         then rep (run r) fuel2 (pred lo) (option_map pred hi) s' k
                         else None)).
  { apply run_ext. intros s'.
    destruct (String.length s' <? String.length s)%nat eqn:Hlt; [|reflexivity].
    apply Nat.ltb_lt in Hlt. apply IH; lia. }
  destruct hi as [[|hi]|]; try reflexivity; now rewrite Hagain.
Qed.

Lemma substring_prefix_idem (n : nat) :
  forall s, substring 0 (String.length (substring 0 n s)) s = substring 0 n s.
Proof.
  induction n as [|n IH]; intros [|c s]; simpl; try reflexivity.
  now rewrite IH.
Qed.

(** A global search reports its matches from left to right. *)
Lemma scan_from (r : regex) :
  forall s index skip m, In m (scan r s index skip) -> (index <= fst m)%nat.
Proof.
  induction s as [|c s IH]; intros index skip m; simpl.
  - destruct skip; [destruct (exec r "")|]; simpl; try tauto.
    intros [<-|[]]. apply Nat.le_refl.
  - destruct skip as [|skip].
    + destruct (exec r (String c s)) as [rest|].
      * intros [<-|Hin]; [apply Nat.le_refl|].
        apply IH in Hin. lia.
      * intros Hin. apply IH in Hin. lia.
    + intros Hin. apply IH in Hin. lia.
Qed.

Lemma scan_sorted (r : regex) :
  forall s index skip,
    StronglySorted (fun m1 m2 => (fst m1 < fst m2)%nat) (scan r s index skip).
Proof.
  induction s as [|c s IH]; intros index skip; simpl.
  - destruct skip; [destruct (exec r "")|]; repeat constructor.
  - destruct skip as [|skip]; [|apply IH].
    destruct (exec r (String c s)) as [rest|]; [|apply IH].
    constructor; [apply IH|].
    apply Forall_forall. intros m Hin. apply scan_from in Hin. simpl. lia.
Qed.

(** A reported match is the text found at its position. *)
Lemma scan_occurs (r : regex) :
  forall s index skip i key,
    In (i, key) (scan r s index skip) ->
    substring (i - index) (String.length key) s = key.
Proof.
  induction s as [|c s IH]; intros index skip i key; cbn [scan].
  - destruct skip; [destruct (exec r "")|]; cbn [In]; try tauto.
    intros [[= <- <-]|[]]. now rewrite Nat.sub_diag.
  - assert (Hnext : forall skip',
               In (i, key) (scan r s (S index) skip') ->
               substring (i - index) (String.length key) (String c s) = key).
    { intros skip' Hin. pose proof (scan_from _ _ _ _ _ Hin) as Hle.
      cbn [fst] in Hle. apply IH in Hin.
      replace (i - index)%nat with (S (i - S index)) by lia. exact Hin. }
    destruct skip as [|skip]; [|apply Hnext].
    destruct (exec r (String c s)) as [rest|]; [|apply Hnext].
    intros [Hhead|Hin]; [|now apply Hnext in Hin].
    pose proof (f_equal fst Hhead) as Hi.
    pose proof (f_equal snd Hhead) as Hkey.
    cbn [fst snd] in Hi, Hkey. subst i. rewrite Nat.sub_diag.
    rewrite <- Hkey. apply substring_prefix_idem.
Qed.

(** The last element of a list that is not empty, by its index. *)
Lemma nth_error_last {A : Type} (l : list A) (x : A) :
  nth_error (l ++ [x]) (List.length (l ++ [x]) - 1) = Some x.
Proof.
  rewrite length_app. simpl.
  replace (List.length l + 1 - 1)%nat with (List.length l) by lia.
  rewrite nth_error_app2 by lia. now rewrite Nat.sub_diag.
Qed.

Lemma sorted_last_greatest (earlier : list (nat * string)) (m : nat * string) :
  StronglySorted (fun m1 m2 => (fst m1 < fst m2)%nat) (earlier ++ [m])%list ->
  Forall (fun m' => (fst m' < fst m)%nat) earlier.
Proof.
  induction earlier as [|m0 earlier IH]; simpl; intros Hsorted; [constructor|].
  inversion Hsorted as [|? ? Htail Hhead]; subst.
  constructor; [|now apply IH].
  rewrite Forall_forall in Hhead. apply Hhead.
  apply in_or_app. right. now left.
Qed.

(** The search on a few branch names: two keys, a key of one letter (the
    pattern asks for two characters before the hyphen), a key without
    digits, and a key with a digit in its project part. *)
Example scan_two_keys :
  scan jiraMatcher "x/AB-12-CD-3" 0 0 = [(2, "AB-12"); (8, "CD-3")].
Proof. reflexivity. Qed.

Example scan_short_key : scan jiraMatcher "A-1" 0 0 = [].
Proof. reflexivity. Qed.

Example scan_no_digits : scan jiraMatcher "ABC-x" 0 0 = [].
Proof. reflexivity. Qed.

Example scan_digit_in_project :
  scan jiraMatcher "fix/AB1C-70x" 0 0 = [(4, "AB1C-70")].
Proof. reflexivity. Qed.

(** [match] answers [null] when nothing is found, and otherwise the texts
    found, the rightmost one last. *)
Lemma js_match_cases (s : string) (r : regex) :
  (scan r s 0 0 = [] /\ js_match s r = None)
  \/ (exists earlier index key,
        scan r s 0 0 = (earlier ++ [(index, key)])%list
        /\ js_match s r = Some (map snd earlier ++ [key])%list
        /\ Forall (fun m => (fst m < index)%nat) earlier
        /\ substring index (String.length key) s = key).
Proof.
  unfold js_match.
  pose proof (scan_sorted r s 0 0) as Hsorted.
  pose proof (scan_occurs r s 0 0) as Hoccurs.
  destruct (scan r s 0 0) as [|m found] eqn:Hscan; [now left | right].
  destruct (exists_last (l := m :: found)) as (earlier & [index key] & Hlast);
    [discriminate|].
  exists earlier, index, key.
  rewrite Hlast in *.
  split; [reflexivity|].
  split.
  { destruct earlier; [reflexivity|]. now rewrite map_app. }
  split.
  { now apply (sorted_last_greatest earlier (index, key)). }
  rewrite <- (Hoccurs index key) at 2.
  - now rewrite Nat.sub_0_r.
  - apply in_or_app. right. now left.
Qed.

(** ** Properties of the version-control context resolver *)

(** C5: the resolver gives [ABC-123] on [feature/ABC-123-fix], the
    sentinel on [main] and [DEF-22] on [ABC-1-and-DEF-22], with or without
    the line feed the command prints after the name.  On every output,
    either the search finds nothing and the resolver gives the sentinel
    [no jira ticket], or it gives the key found at the greatest position
    of the text. *)
Theorem getGitBranch_last_key :
  (forall err,
      getGitBranch (Resolved (mkExecResult "feature/ABC-123-fix" err))
      = Resolved (Some "ABC-123")
      /\ getGitBranch (Resolved (mkExecResult "main" err))
         = Resolved (Some "no jira ticket")
      /\ getGitBranch (Resolved (mkExecResult "ABC-1-and-DEF-22" err))
         = Resolved (Some "DEF-22")
      /\ getGitBranch (Resolved (mkExecResult ("feature/ABC-123-fix" ++ LF) err))
         = Resolved (Some "ABC-123")
      /\ getGitBranch (Resolved (mkExecResult ("main" ++ LF) err))
         = Resolved (Some "no jira ticket")
      /\ getGitBranch (Resolved (mkExecResult ("ABC-1-and-DEF-22" ++ LF) err))
         = Resolved (Some "DEF-22"))
  /\ forall out err,
      (scan jiraMatcher out 0 0 = []
       /\ getGitBranch (Resolved (mkExecResult out err))
          = Resolved (Some "no jira ticket"))
      \/ (exists earlier index key,
            scan jiraMatcher out 0 0 = (earlier ++ [(index, key)])%list
            /\ Forall (fun m => (fst m < index)%nat) earlier
            /\ substring index (String.length key) out = key
            /\ getGitBranch (Resolved (mkExecResult out err))
               = Resolved (Some key)).
Proof.
  split.
  - intros err. repeat split; vm_compute; reflexivity.
  - intros out err. unfold getGitBranch, bind. cbn [stdout].
    destruct (js_match_cases out jiraMatcher)
      as [[Hnone ->] | (earlier & index & key & Hscan & -> & Hless & Hat)].
    + now left.
    + right. exists earlier, index, key.
      repeat (split; [assumption|]).
      do 2 f_equal.
      replace key with (snd (index, key)) at 1 2 by reflexivity.
      change [snd (index, key)] with (map snd [(index, key)]).
      rewrite <- map_app.
      rewrite length_map. rewrite nth_error_map.
      now rewrite nth_error_last.
Qed.

(** ** The matcher decides [Lang] *)

(** The iterations of a quantifier, given that the matcher of its body is
    right: an answer comes from some number of iterations within the
    bounds, and no answer means that no such number gives one. *)
Lemma rep_spec (body : string -> cont -> option string)
      (R : string -> string -> Prop) :
  (forall s k,
      (forall x, body s k = Some x -> exists s', R s s' /\ k s' = Some x)
      /\ (body s k = None -> forall s', R s s' -> k s' = None)) ->
  forall fuel lo hi s k,
    (String.length s < fuel)%nat ->
    (forall x, rep body fuel lo hi s k = Some x ->
               exists s', within lo hi R s s' /\ k s' = Some x)
    /\ (rep body fuel lo hi s k = None ->
        forall s', within lo hi R s s' -> k s' = None).
Proof.
  intros Hbody fuel.
  induction fuel as [|fuel IH]; intros lo hi s k Hfuel; [lia|].
  cbn [rep].
  set (again_k := fun s' : string =>
         if (String.length s' <? String.length s)%nat
         then rep body fuel (pred lo) (option_map pred hi) s' k
         else None).
  (* one more iteration, when it answers *)
  assert (Hmore : forall x, body s again_k = Some x ->
            hi <> Some 0 ->
            exists s', within lo hi R s s' /\ k s' = Some x).
  { intros x Hx Hhi.
    destruct (proj1 (Hbody s again_k) x Hx) as (mid & Hmid & Hk).
    unfold again_k in Hk.
    destruct (String.length mid <? String.length s)%nat eqn:Hlt; [|discriminate].
    apply Nat.ltb_lt in Hlt.
    destruct (proj1 (IH (pred lo) (option_map pred hi) mid k ltac:(lia)) x Hk)
      as (s' & (n & Hlo & Hhin & Hiter) & Hks).
    exists s'. split; [|exact Hks].
    exists (S n). split; [lia|]. split.
    - destruct hi as [[|h]|]; [now elim Hhi | simpl in Hhin; lia | exact I].
    - exists mid. now repeat split. }
  (* no answer after one more iteration *)
  assert (Hnomore : forall n s',
            (hi = Some 0 \/ body s again_k = None) ->
            (lo <= S n)%nat ->
            match hi with Some h => (S n <= h)%nat | None => True end ->
            iter (S n) R s s' -> k s' = None).
  { intros n s' Hnone Hlo Hhin (mid & Hmid & Hlt & Hiter).
    destruct Hnone as [-> | Hnone]; [lia|].
    pose proof (proj2 (Hbody s again_k) Hnone mid Hmid) as Hk.
    unfold again_k in Hk.
    apply Nat.ltb_lt in Hlt as Hltb. rewrite Hltb in Hk.
    apply (proj2 (IH (pred lo) (option_map pred hi) mid k ltac:(lia)) Hk).
    exists n. split; [lia|]. split; [|exact Hiter].
    destruct hi as [h|]; simpl; [lia | exact I]. }
  assert (Hstop : forall x, lo = 0 -> k s = Some x ->
            exists s', within lo hi R s s' /\ k s' = Some x).
  { intros x -> Hk. exists s. split; [|exact Hk].
    exists 0. split; [lia|]. split; [|reflexivity].
    destruct hi; [lia | exact I]. }
  split.
  - intros x.
    destruct hi as [[|h]|].
    + destruct (lo =? 0)%nat eqn:Hlo; [|discriminate].
      apply Nat.eqb_eq in Hlo. now apply Hstop.
    + fold again_k. destruct (body s again_k) as [y|] eqn:Hbs.
      * intros [= <-]. now apply Hmore.
      * destruct (lo =? 0)%nat eqn:Hlo; [|discriminate].
        apply Nat.eqb_eq in Hlo. now apply Hstop.
    + fold again_k. destruct (body s again_k) as [y|] eqn:Hbs.
      * intros [= <-]. now apply Hmore.
      * destruct (lo =? 0)%nat eqn:Hlo; [|discriminate].
        apply Nat.eqb_eq in Hlo. now apply Hstop.
  - intros Hnone s' (n & Hlo & Hhin & Hiter).
    assert (Hagain : hi = Some 0 \/ body s again_k = None).
    { destruct hi as [[|h]|]; [now left | right | right];
        fold again_k in Hnone;
        now destruct (body s again_k). }
    destruct n as [|n]; [|now apply (Hnomore n s')].
    simpl in Hiter. subst s'.
    assert (Hlo0 : (lo =? 0)%nat = true) by (apply Nat.eqb_eq; lia).
    rewrite Hlo0 in Hnone.
    destruct hi as [[|h]|]; [exact Hnone | |];
      fold again_k in Hnone;
      destruct (body s again_k); [discriminate | exact Hnone | discriminate | exact Hnone].
Qed.

(** The matcher is sound and complete for [Lang]: its answer is the answer
    of the continuation after some match, and it has no answer only when
    the continuation has none after any match. *)
Lemma run_spec (r : regex) :
  forall s k,
    (forall x, run r s k = Some x -> exists s', Lang r s s' /\ k s' = Some x)
    /\ (run r s k = None -> forall s', Lang r s s' -> k s' = None).
Proof.
  induction r as [ranges | r1 IH1 r2 IH2 | lo hi r1 IH1 | r1 IH1 | r1 IH1 | ];
    intros s k.
  - cbn [run Lang]. destruct s as [|c s].
    + split; [discriminate|]. intros _ s' (c & Hs & _). discriminate.
    + destruct (in_class ranges c) eqn:Hc; split.
      * intros x Hx. exists s. split; [|exact Hx]. now exists c.
      * intros Hnone s' (c' & [= <- <-] & _). exact Hnone.
      * discriminate.
      * intros _ s' (c' & [= <- <-] & Hc'). congruence.
  - cbn [run Lang]. split.
    + intros x Hx.
      destruct (proj1 (IH1 s _) x Hx) as (mid & Hmid & Hx2).
      destruct (proj1 (IH2 mid k) x Hx2) as (s' & Hs' & Hk).
      exists s'. split; [|exact Hk]. now exists mid.
    + intros Hnone s' (mid & Hmid & Hs').
      pose proof (proj2 (IH1 s _) Hnone mid Hmid) as Hnone2.
      exact (proj2 (IH2 mid k) Hnone2 s' Hs').
  - exact (rep_spec (run r1) (Lang r1) IH1 (S (String.length s)) lo hi s k
                    (Nat.lt_succ_diag_r _)).
  - cbn [run Lang]. apply IH1.
  - cbn [run Lang]. destruct (run r1 s Some) as [y|] eqn:Hlook; split.
    + discriminate.
    + intros _ s' (_ & Hno).
      destruct (proj1 (IH1 s Some) y Hlook) as (t & Ht & _).
      now elim (Hno t).
    + intros x Hx. exists s. split; [|exact Hx].
      split; [reflexivity|]. intros t Ht.
      pose proof (proj2 (IH1 s Some) Hlook t Ht). discriminate.
    + intros Hnone s' (-> & _). exact Hnone.
  - cbn [run Lang]. destruct s as [|c s]; split.
    + intros x Hx. now exists "".
    + intros Hnone s' (_ & ->). exact Hnone.
    + discriminate.
    + intros _ s' (Hs & _). discriminate.
Qed.

(** An attempt that answers has matched; one that does not had nothing to
    match. *)
Lemma exec_sound (r : regex) (s rest : string) :
  exec r s = Some rest -> Lang r s rest.
Proof.
  intros Hexec.
  destruct (proj1 (run_spec r s Some) rest Hexec) as (s' & Hs' & [= ->]).
  exact Hs'.
Qed.

Lemma exec_complete (r : regex) (s rest : string) :
  Lang r s rest -> exec r s <> None.
Proof.
  intros Hlang Hnone.
  pose proof (proj2 (run_spec r s Some) Hnone rest Hlang). discriminate.
Qed.

(** ** What [jiraMatcher] matches *)

Lemma in_single (c0 c : ascii) : in_class [(c0, c0)] c = true -> c = c0.
Proof.
  unfold in_class, in_range. cbn [existsb]. rewrite orb_false_r.
  intros H. apply andb_prop in H as [H1 H2].
  apply Nat.leb_le in H1, H2.
  rewrite <- (ascii_nat_embedding c), <- (ascii_nat_embedding c0).
  f_equal. lia.
Qed.

Lemma upper_digit_alnum (c : ascii) :
  in_class upper_digit c = true -> in_class alnum c = true.
Proof.
  unfold in_class, upper_digit, alnum. cbn [existsb].
  destruct (in_range c ("A", "Z")%char); [reflexivity|].
  destruct (in_range c ("0", "9")%char); [reflexivity | discriminate].
Qed.

Lemma upper_upper_digit (c : ascii) :
  in_class upper c = true -> in_class upper_digit c = true.
Proof.
  unfold in_class, upper, upper_digit. cbn [existsb].
  destruct (in_range c ("A", "Z")%char); [reflexivity | discriminate].
Qed.

Lemma all_upper_digit_alnum (w : string) :
  all_in upper_digit w = true -> all_in alnum w = true.
Proof.
  induction w as [|c w IH]; cbn [all_in]; [reflexivity|].
  intros H. apply andb_prop in H as [Hc Hw].
  now rewrite (upper_digit_alnum c Hc), IH.
Qed.

(** Iterating a class matches a run of its code units. *)
Lemma iter_cls_sound (ranges : list (ascii * ascii)) :
  forall n s s',
    iter n (Lang (Cls ranges)) s s' ->
    exists w, s = w ++ s' /\ String.length w = n /\ all_in ranges w = true.
Proof.
  induction n as [|n IH]; intros s s'; cbn [iter].
  - intros ->. now exists "".
  - intros (mid & (c & -> & Hc) & _ & Hiter).
    destruct (IH mid s' Hiter) as (w & -> & Hlen & Hall).
    exists (String c w). cbn [all_in String.length append].
    now rewrite Hc, Hall, Hlen.
Qed.

Lemma iter_cls_complete (ranges : list (ascii * ascii)) :
  forall w s',
    all_in ranges w = true ->
    iter (String.length w) (Lang (Cls ranges)) (w ++ s') s'.
Proof.
  induction w as [|c w IH]; intros s'; cbn [all_in String.length append iter];
    [reflexivity|].
  intros H. apply andb_prop in H as [Hc Hw].
  exists (w ++ s'). split; [now exists c|].
  split; [cbn [String.length]; lia | now apply IH].
Qed.

Lemma length_nonempty (w : string) : (1 <= String.length w)%nat -> w <> "".
Proof.
  destruct w; cbn [String.length]; [lia | discriminate].
Qed.

Lemma nonempty_length (w : string) : w <> "" -> (1 <= String.length w)%nat.
Proof.
  destruct w; cbn [String.length]; [congruence | lia].
Qed.

(** A successful attempt has read an issue key at the start of the input. *)
Lemma jira_sound (s rest : string) :
  exec jiraMatcher s = Some rest ->
  exists key, key_shaped key /\ s = key ++ rest.
Proof.
  intros Hexec. apply exec_sound in Hexec.
  unfold jiraMatcher, chr in Hexec. cbn [Lang] in Hexec.
  destruct Hexec as (mid0 & (-> & _) & mid1 & (nu & Hnu1 & Hnu2 & Hu)
                     & mid2 & (nk & Hnk & _ & Hk)
                     & mid3 & (c & -> & Hc)
                     & (nd & Hnd & _ & Hd)).
  apply (iter_cls_sound upper) in Hu as (wu & -> & Hlu & Hau).
  apply (iter_cls_sound upper_digit) in Hk as (wk & -> & Hlk & Hak).
  apply (iter_cls_sound digit) in Hd as (wd & -> & Hld & Had).
  apply in_single in Hc. subst c.
  destruct wu as [|u [|u' wu]]; cbn [String.length] in Hlu; try lia.
  cbn [all_in] in Hau. rewrite andb_true_r in Hau.
  exists (String u (wk ++ "-" ++ wd)). split.
  - exists u, wk, wd. repeat split; try assumption.
    + apply length_nonempty. lia.
    + apply length_nonempty. lia.
  - cbn [append]. f_equal. rewrite !append_assoc. reflexivity.
Qed.

(** A run of letters and digits before a hyphen cannot be read as a run of
    letters and digits that ends the text, alone or with one hyphen,
    unless nothing follows the hyphen. *)
Lemma alnum_split :
  forall a w x tail,
    all_in alnum a = true ->
    all_in alnum w = true ->
    a ++ String "-" x = w ++ tail ->
    tail = "" \/ tail = "-" ->
    x = "".
Proof.
  induction a as [|c a IH]; intros w x tail Ha Hw Heq Htail.
  - destruct w as [|c' w]; cbn [append] in Heq.
    + destruct Htail as [-> | ->]; [discriminate | now injection Heq].
    + injection Heq as <- _. cbn [all_in] in Hw.
      apply andb_prop in Hw as [Hc _]. vm_compute in Hc. discriminate.
  - cbn [all_in] in Ha. apply andb_prop in Ha as [Hc Ha].
    destruct w as [|c' w]; cbn [append] in Heq.
    + destruct Htail as [-> | ->]; [discriminate|].
      injection Heq as -> _. vm_compute in Hc. discriminate.
    + injection Heq as <- Heq. cbn [all_in] in Hw.
      apply andb_prop in Hw as [_ Hw]. now apply (IH w x tail).
Qed.

(** The lookahead of [jiraMatcher] holds nowhere an issue key starts. *)
Lemma jira_lookahead_idle (u : ascii) (k d post : string) :
  in_class upper u = true ->
  all_in upper_digit k = true ->
  d <> "" ->
  forall t,
    ~ Lang (Seq (Grp (Rep 1 (Some 10) (Cls alnum)))
                (Seq (Rep 0 (Some 1) (chr "-")) Eos))
           (String u (k ++ String "-" (d ++ post))) t.
Proof.
  intros Hu Hk Hd t Hlang. unfold chr in Hlang. cbn [Lang] in Hlang.
  destruct Hlang as (mid & (n & _ & _ & Hn)
                     & mid' & (m & _ & Hm1 & Hm) & -> & _).
  apply (iter_cls_sound alnum) in Hn as (w & Heq & _ & Hw).
  apply (iter_cls_sound [("-", "-")]%char) in Hm as (wd & -> & Hlen & Hwd).
  assert (Htail : wd ++ "" = "" \/ wd ++ "" = "-").
  { destruct wd as [|c [|c' wd]]; cbn [String.length] in Hlen; try lia.
    - now left.
    - right. cbn [all_in] in Hwd. rewrite andb_true_r in Hwd.
      apply in_single in Hwd. now subst c. }
  assert (Hx : d ++ post = "").
  { apply (alnum_split (String u k) w (d ++ post) (wd ++ "")); try assumption.
    cbn [all_in]. rewrite (upper_digit_alnum u (upper_upper_digit u Hu)).
    now apply all_upper_digit_alnum. }
  destruct d; [now apply Hd | discriminate].
Qed.

(** An attempt where an issue key starts succeeds. *)
Lemma jira_complete (key post : string) :
  key_shaped key -> exec jiraMatcher (key ++ post) <> None.
Proof.
  intros (u & k & d & -> & Hu & Hk & Hak & Hd & Had).
  apply (exec_complete jiraMatcher _ post).
  assert (Hs : String u (k ++ "-" ++ d) ++ post
               = String u (k ++ String "-" (d ++ post))).
  { cbn [append]. now rewrite append_assoc. }
  rewrite Hs. unfold jiraMatcher, chr. cbn [Lang].
  eexists. split.
  { split; [reflexivity|]. now apply jira_lookahead_idle. }
  exists (k ++ String "-" (d ++ post)). split.
  { exists 1. split; [lia|]. split; [lia|].
    apply (iter_cls_complete upper (String u "")).
    cbn [all_in]. now rewrite Hu. }
  exists (String "-" (d ++ post)). split.
  { exists (String.length k). split; [now apply nonempty_length|].
    split; [exact I|]. now apply (iter_cls_complete upper_digit). }
  exists (d ++ post). split.
  { now exists "-"%char. }
  exists (String.length d). split; [now apply nonempty_length|].
  split; [exact I|]. now apply (iter_cls_complete digit).
Qed.

(** ** What the global search reports *)

Lemma length_append (a b : string) :
  String.length (a ++ b) = (String.length a + String.length b)%nat.
Proof.
  induction a as [|c a IH]; cbn [append String.length]; [reflexivity | now rewrite IH].
Qed.

Lemma substring_prefix (w rest : string) :
  substring 0 (String.length (w ++ rest) - String.length rest) (w ++ rest) = w.
Proof.
  rewrite length_append.
  replace (String.length w + String.length rest - String.length rest)%nat
    with (String.length w) by lia.
  induction w as [|c w IH]; cbn [append String.length substring].
  - now destruct rest.
  - now rewrite IH.
Qed.

Lemma substring_length_le (n : nat) :
  forall s, (String.length (substring 0 n s) <= n)%nat.
Proof.
  induction n as [|n IH]; intros [|c s]; cbn [substring String.length]; try lia.
  specialize (IH s). lia.
Qed.

(** An attempt is made only after the positions passed over. *)
Lemma scan_after_skip (r : regex) :
  forall s index skip m,
    In m (scan r s index skip) -> (index + skip <= fst m)%nat.
Proof.
  induction s as [|c s IH]; intros index skip m; cbn [scan].
  - destruct skip; [destruct (exec r "")|]; cbn [In]; try tauto.
    intros [<-|[]]. cbn [fst]. lia.
  - destruct skip as [|skip].
    + destruct (exec r (String c s)) as [rest|].
      * intros [<-|Hin]; [cbn [fst]; lia|]. apply IH in Hin. lia.
      * intros Hin. apply IH in Hin. lia.
    + intros Hin. apply IH in Hin. lia.
Qed.

(** Every match reported is the text an attempt read, at its position. *)
Lemma scan_exec (r : regex) :
  forall s index skip i key,
    In (i, key) (scan r s index skip) ->
    exists pre t rest,
      s = pre ++ t
      /\ String.length pre = (i - index)%nat
      /\ exec r t = Some rest
      /\ key = substring 0 (String.length t - String.length rest) t.
Proof.
  induction s as [|c s IH]; intros index skip i key; cbn [scan].
  - destruct skip; [destruct (exec r "") as [rest|] eqn:Hexec|]; cbn [In];
      try tauto.
    intros [Hhead|[]].
    pose proof (f_equal fst Hhead) as Hi.
    pose proof (f_equal snd Hhead) as Hkey. cbn [fst snd] in Hi, Hkey.
    exists "", "", rest. subst i key. rewrite Nat.sub_diag.
    repeat split; assumption.
  - assert (Hnext : forall skip',
               In (i, key) (scan r s (S index) skip') ->
               exists pre t rest,
                 String c s = pre ++ t
                 /\ String.length pre = (i - index)%nat
                 /\ exec r t = Some rest
                 /\ key = substring 0 (String.length t - String.length rest) t).
    { intros skip' Hin. pose proof (scan_after_skip _ _ _ _ _ Hin) as Hle.
      cbn [fst] in Hle.
      destruct (IH _ _ _ _ Hin) as (pre & t & rest & -> & Hlen & Hexec & Hkey).
      exists (String c pre), t, rest. cbn [append String.length].
      repeat split; try assumption. lia. }
    destruct skip as [|skip]; [|apply Hnext].
    destruct (exec r (String c s)) as [rest|] eqn:Hexec; [|apply Hnext].
    intros [Hhead|Hin]; [|now apply Hnext in Hin].
    pose proof (f_equal fst Hhead) as Hi.
    pose proof (f_equal snd Hhead) as Hkey. cbn [fst snd] in Hi, Hkey.
    exists "", (String c s), rest. subst i. rewrite Nat.sub_diag.
    repeat split; [exact Hexec | now symmetry].
Qed.

(** The search finds something when an attempt can succeed somewhere. *)
Lemma scan_complete (r : regex) :
  forall pre s index,
    exec r s <> None -> scan r (pre ++ s) index 0 <> [].
Proof.
  induction pre as [|c pre IH]; intros s index Hexec; cbn [append].
  - destruct s as [|c s]; cbn [scan]; destruct (exec r _); try discriminate;
      now elim Hexec.
  - cbn [scan].
    destruct (exec r (String c (pre ++ s))); [discriminate | now apply IH].
Qed.

(** Matches do not overlap: each starts where the one before has ended,
    or later. *)
Lemma scan_apart (r : regex) :
  forall s index skip,
    StronglySorted
      (fun m1 m2 => (fst m1 + String.length (snd m1) <= fst m2)%nat)
      (scan r s index skip).
Proof.
  induction s as [|c s IH]; intros index skip; cbn [scan].
  - destruct skip; [destruct (exec r "")|]; repeat constructor.
  - destruct skip as [|skip]; [|apply IH].
    destruct (exec r (String c s)) as [rest|]; [|apply IH].
    constructor; [apply IH|].
    apply Forall_forall. intros m Hin. apply scan_after_skip in Hin.
    cbn [fst snd].
    pose proof (substring_length_le
                  (String.length (String c s) - String.length rest)
                  (String c s)) as Hle.
    lia.
Qed.

(** ** Issue keys *)

Lemma key_shaped_not_sentinel (v : string) :
  key_shaped v -> v <> no_jira_ticket.
Proof.
  intros (u & k & d & -> & Hu & _) [= -> _]. vm_compute in Hu. discriminate.
Qed.

Lemma key_shaped_accepted (v : string) :
  key_shaped v -> validate v = Accepted.
Proof.
  now intros (u & k & d & -> & _).
Qed.

(** The last quantifier of a pattern takes all it can: what it leaves does
    not start with a code unit of its class. *)
Lemma rep_cls_total (ranges : list (ascii * ascii)) :
  forall fuel s,
    (String.length s < fuel)%nat ->
    rep (run (Cls ranges)) fuel 0 None s Some <> None.
Proof.
  intros [|fuel] s Hfuel; [lia|]. cbn [rep Nat.eqb].
  now destruct (run (Cls ranges) s _).
Qed.

Lemma rep_cls_greedy (ranges : list (ascii * ascii)) :
  forall fuel lo s rest,
    (lo <= 1)%nat ->
    (String.length s < fuel)%nat ->
    rep (run (Cls ranges)) fuel lo None s Some = Some rest ->
    match rest with
    | String c _ => in_class ranges c = false
    | "" => True
    end.
Proof.
  pose proof (rep_cls_total ranges) as Htotal.
  assert (Hbody : forall s k,
             run (Cls ranges) s k
             = match s with
               | String c s' => if in_class ranges c then k s' else None
               | "" => None
               end) by reflexivity.
  remember (run (Cls ranges)) as body eqn:Hdef. clear Hdef.
  induction fuel as [|fuel IH]; intros lo s rest Hlo Hfuel; [lia|].
  cbn [rep option_map]. rewrite Hbody.
  destruct s as [|c s].
  - destruct (lo =? 0)%nat; [|discriminate]. intros [= Hrest]. now subst rest.
  - destruct (in_class ranges c) eqn:Hc.
    + cbn [String.length] in Hfuel |- *.
      assert (Hlt : (String.length s <? S (String.length s))%nat = true)
        by (apply Nat.ltb_lt; lia).
      rewrite Hlt.
      assert (Hpred : pred lo = 0) by lia. rewrite Hpred.
      specialize (Htotal fuel s ltac:(lia)).
      destruct (rep body fuel 0 None s Some) as [y|] eqn:Hrep;
        [|now elim Htotal].
      intros [= Hrest]. subst rest. apply (IH 0 s y); [lia | lia | exact Hrep].
    + destruct (lo =? 0)%nat; [|discriminate].
      intros [= Hrest]. now subst rest.
Qed.

Lemma run_grp_inv (r : regex) (s : string) (k : cont) (x : string) :
  run (Grp r) s k = Some x -> run r s k = Some x.
Proof.
  intros H. exact H.
Qed.

Lemma run_seq_inv (r1 r2 : regex) (s : string) (k : cont) (x : string) :
  run (Seq r1 r2) s k = Some x -> exists s', run r2 s' k = Some x.
Proof.
  intros H.
  destruct (proj1 (run_spec r1 s (fun s' => run r2 s' k)) x H) as (s' & _ & Hk).
  now exists s'.
Qed.

Lemma jira_takes_all_digits (s rest : string) :
  exec jiraMatcher s = Some rest -> next_is_digit rest = false.
Proof.
  unfold exec, jiraMatcher. intros Hrun.
  apply run_grp_inv in Hrun.
  apply run_seq_inv in Hrun as (s0 & Hrun).
  apply run_seq_inv in Hrun as (s1 & Hrun).
  apply run_seq_inv in Hrun as (s2 & Hrun).
  apply run_seq_inv in Hrun as (s3 & Hrun).
  apply (rep_cls_greedy digit) in Hrun; [|lia|lia].
  now destruct rest.
Qed.

(** What the search for [jiraMatcher] reports are issue keys of the text,
    each with all the digits that follow its hyphen. *)
Lemma scan_keys (out : string) (i : nat) (key : string) :
  In (i, key) (scan jiraMatcher out 0 0) ->
  key_shaped key
  /\ exists pre rest,
      out = pre ++ key ++ rest
      /\ String.length pre = i
      /\ next_is_digit rest = false.
Proof.
  intros Hin.
  destruct (scan_exec _ _ _ _ _ _ Hin)
    as (pre & t & rest & -> & Hlen & Hexec & ->).
  pose proof (jira_takes_all_digits t rest Hexec) as Hdigits.
  destruct (jira_sound t rest Hexec) as (key & Hshape & ->).
  rewrite substring_prefix. split; [exact Hshape|].
  exists pre, rest. repeat split; [lia | exact Hdigits].
Qed.

(** The two outcomes of the resolver when the command succeeds. *)
Lemma resolver_cases (out err : string) :
  ((forall key, key_shaped key -> ~ occurs key out)
   /\ getGitBranch (Resolved (mkExecResult out err))
      = Resolved (Some no_jira_ticket))
  \/ (exists key pre rest,
        key_shaped key
        /\ out = pre ++ key ++ rest
        /\ next_is_digit rest = false
        /\ getGitBranch (Resolved (mkExecResult out err))
           = Resolved (Some key)).
Proof.
  unfold getGitBranch, bind. cbn [stdout].
  destruct (js_match_cases out jiraMatcher)
    as [[Hnone ->] | (earlier & index & key & Hscan & -> & _ & _)].
  - left. split; [|reflexivity].
    intros key Hshape (pre & post & ->).
    now apply (scan_complete jiraMatcher pre (key ++ post) 0
                 (jira_complete key post Hshape)).
  - right.
    assert (Hin : In (index, key) (scan jiraMatcher out 0 0)).
    { rewrite Hscan. apply in_or_app. right. now left. }
    destruct (scan_keys out index key Hin)
      as (Hshape & pre & rest & Hout & _ & Hdigits).
    exists key, pre, rest.
    repeat split; try assumption.
    do 2 f_equal.
    replace key with (snd (index, key)) at 1 2 by reflexivity.
    change [snd (index, key)] with (map snd [(index, key)]).
    rewrite <- map_app, length_map, nth_error_map.
    now rewrite nth_error_last.
Qed.

(** ** Properties of the session *)

Section Session.

Context {modules : Modules}.

(** C2, as amended: when the branch lookup fails, [getGitBranch] is
    rejected with the failure, so is [loadConfig], and [prompter] stops
    after registering its prompts: it asks nothing and commits nothing.
    The resolver gives the sentinel [no jira ticket] only when the lookup
    succeeds and no issue key occurs in its output, and it does so then. *)
Theorem lookup_failure_aborts (w : World) :
  (forall reason,
      git w = Rejected reason ->
      getGitBranch (git w) = Rejected reason
      /\ loadConfig w = Rejected reason
      /\ prompter w = {| trace := registered; settled := Rejected reason |}
      /\ (forall questions, ~ In (Prompt questions) (trace (prompter w)))
      /\ (forall message, ~ In (Commit message) (trace (prompter w))))
  /\ (getGitBranch (git w) = Resolved (Some "no jira ticket")
      <-> exists r,
            git w = Resolved r
            /\ forall key, key_shaped key -> ~ occurs key (stdout r)).
Proof.
  split.
  - intros reason Hgit.
    assert (Hload : loadConfig w = Rejected reason).
    { unfold loadConfig. now rewrite Hgit. }
    assert (Hrun : prompter w
                   = {| trace := registered; settled := Rejected reason |}).
    { unfold prompter, session. now rewrite Hload. }
    rewrite Hgit, Hrun.
    split; [reflexivity|].
    split; [exact Hload|].
    split; [reflexivity|].
    split.
    + intros questions [H|[H|[]]]; discriminate.
    + intros message [H|[H|[]]]; discriminate.
  - destruct (git w) as [[out err]|e].
    + destruct (resolver_cases out err)
        as [[Hnone Hres] | (key & pre & rest & Hshape & Hout & _ & Hres)];
        rewrite Hres.
      * split; [|reflexivity].
        intros _. exists (mkExecResult out err). now split.
      * split.
        -- intros [= Hkey]. now elim (key_shaped_not_sentinel key Hshape).
        -- intros (r & [= <-] & Hnone). cbn [stdout] in Hnone.
           elim (Hnone key Hshape). now exists pre, rest.
    + split; [discriminate|]. intros (r & Hgit & _). discriminate.
Qed.

(** C3, as amended: when the loaded configuration has no types, the
    catalog is empty, [createQuestions] still makes its eight questions,
    the [type] question offers no choice, and [prompter] puts the questions
    to the prompt engine: nothing fails before the prompt. *)
Theorem empty_catalog_is_prompted (w : World) (jiraTicket : option string)
        (config : Config) :
  loadConfig w = Resolved (jiraTicket, config) ->
  types config = [] ->
  let questions := createQuestions jiraTicket config in
  getEmojiChoices config = []
  /\ map q_name questions
     = ["type"; "scope"; "issues"; "time"; "comment"; "workflow";
        "subject"; "body"]
  /\ (exists search,
        option_map q_source (question_named "type" questions)
          = Some (Some (TypeSource search))
        /\ search None = Resolved [])
  /\ (exists rest,
        trace (prompter w) = (registered ++ Prompt questions :: rest)%list).
Proof.
  intros Hload Htypes questions.
  assert (Hchoices : getEmojiChoices config = []).
  { unfold getEmojiChoices. now rewrite Htypes. }
  split; [exact Hchoices|].
  split; [reflexivity|].
  split.
  - eexists. split; [reflexivity|].
    unfold source. cbn [truthy]. now rewrite Hchoices.
  - unfold prompter, session. rewrite Hload. fold questions.
    destruct (cz_prompt w questions) as [answers|e];
      [destruct (format w answers)|]; eexists; reflexivity.
Qed.

End Session.

Lemma lookup_failure_aborts_witness :
  git world_without_repository = Rejected "fatal: not a git repository"
  /\ prompter world_without_repository
     = {| trace := registered;
          settled := Rejected "fatal: not a git repository" |}.
Proof.
  split; [reflexivity|].
  destruct (proj1 (lookup_failure_aborts world_without_repository)
              "fatal: not a git repository" eq_refl) as (_ & _ & Hrun & _).
  exact Hrun.
Defined.

(** C2, the counterexample: outside a repository the resolver does not
    give the sentinel, the configuration is not loaded, and the session
    ends rejected without a prompt. *)
Lemma lookup_failure_no_fallback :
  git world_without_repository = Rejected "fatal: not a git repository"
  /\ getGitBranch (git world_without_repository)
     <> Resolved (Some "no jira ticket")
  /\ (forall loaded, loadConfig world_without_repository <> Resolved loaded)
  /\ trace (prompter world_without_repository)
     = [Register "autocomplete"; Register "maxlength-input"]
  /\ settled (prompter world_without_repository)
     = Rejected "fatal: not a git repository".
Proof.
  repeat split; discriminate.
Qed.

Lemma empty_catalog_is_prompted_witness :
  loadConfig world_without_types
    = Resolved (Some "no jira ticket", config_without_types)
  /\ types config_without_types = []
  /\ exists rest,
      trace (prompter world_without_types)
      = (registered
         ++ Prompt (@createQuestions example_modules (Some "no jira ticket")
                                     config_without_types)
         :: rest)%list.
Proof.
  split; [reflexivity|].
  split; [reflexivity|].
  destruct (empty_catalog_is_prompted world_without_types
              (Some "no jira ticket") config_without_types
              eq_refl eq_refl) as (_ & _ & _ & Hprompted).
  exact Hprompted.
Defined.

(** C3, the counterexample: with a [.czrc] whose [config] has an empty
    [types], the configuration loads with no type and no error comes
    before the prompt: the questions are put to the prompt engine, the
    [type] question with nothing to choose from. *)
Lemma empty_catalog_no_error :
  (exists jiraTicket config,
      loadConfig world_without_types = Resolved (jiraTicket, config)
      /\ types config = [])
  /\ exists questions search,
      trace (prompter world_without_types)
      = [Register "autocomplete"; Register "maxlength-input";
         Prompt questions]
      /\ option_map q_source (question_named "type" questions)
         = Some (Some (TypeSource search))
      /\ search None = Resolved [].
Proof.
  split.
  - do 2 eexists. split; reflexivity.
  - do 2 eexists. split; [reflexivity|]. split; reflexivity.
Qed.

(** ** The resolver and the issue keys of a branch name *)

(** X1: when the command succeeds the resolver always resolves to a string,
    never to [undefined]: either the sentinel [no jira ticket], or a text
    found in the output that is an issue key: an upper-case letter, one or
    more upper-case letters or digits, a hyphen, one or more digits. *)
Theorem getGitBranch_sentinel_or_key (out err : string) :
  exists v,
    getGitBranch (Resolved (mkExecResult out err)) = Resolved (Some v)
    /\ (v = "no jira ticket" \/ (key_shaped v /\ occurs v out)).
Proof.
  destruct (resolver_cases out err)
    as [[_ Hres] | (key & pre & rest & Hshape & Hout & _ & Hres)].
  - exists no_jira_ticket. split; [exact Hres | now left].
  - exists key. split; [exact Hres | right].
    split; [exact Hshape | now exists pre, rest].
Qed.

(** X2: the resolver gives the sentinel exactly when no issue key occurs
    anywhere in the output of the command; the lookahead of the pattern
    never hides a key. *)
Theorem getGitBranch_sentinel_iff_no_key (out err : string) :
  getGitBranch (Resolved (mkExecResult out err))
    = Resolved (Some "no jira ticket")
  <-> (forall key, key_shaped key -> ~ occurs key out).
Proof.
  destruct (resolver_cases out err)
    as [[Hnone Hres] | (key & pre & rest & Hshape & Hout & _ & Hres)].
  - split; [intros _; exact Hnone | intros _; exact Hres].
  - split.
    + rewrite Hres. intros [= Hkey].
      now elim (key_shaped_not_sentinel key Hshape).
    + intros Hnone. elim (Hnone key Hshape). now exists pre, rest.
Qed.

Lemma getGitBranch_sentinel_iff_no_key_witness :
  getGitBranch (Resolved (mkExecResult ("main" ++ LF) ""))
    = Resolved (Some "no jira ticket")
  /\ key_shaped "AB-1"
  /\ ~ occurs "AB-1" ("main" ++ LF).
Proof.
  split; [reflexivity|].
  assert (Hkey : key_shaped "AB-1").
  { exists "A"%char, "B", "1". repeat split; discriminate. }
  split; [exact Hkey|].
  apply (proj1 (getGitBranch_sentinel_iff_no_key ("main" ++ LF) "") eq_refl
               "AB-1" Hkey).
Defined.

(** X3: the key the resolver gives has all the digits of its number: in
    the output of the command it is not followed by one more digit. *)
Theorem getGitBranch_key_is_whole (out err key : string) :
  getGitBranch (Resolved (mkExecResult out err)) = Resolved (Some key) ->
  key <> "no jira ticket" ->
  exists pre rest,
    out = pre ++ key ++ rest /\ next_is_digit rest = false.
Proof.
  intros Hres Hkey.
  destruct (resolver_cases out err)
    as [[_ Hres'] | (key' & pre & rest & _ & Hout & Hdigits & Hres')];
    rewrite Hres' in Hres; injection Hres as <-.
  - now elim Hkey.
  - now exists pre, rest.
Qed.

Lemma getGitBranch_key_is_whole_witness :
  getGitBranch (Resolved (mkExecResult "feature/ABC-123-fix" ""))
    = Resolved (Some "ABC-123")
  /\ "ABC-123" <> "no jira ticket"
  /\ exists pre rest,
      "feature/ABC-123-fix" = pre ++ "ABC-123" ++ rest
      /\ next_is_digit rest = false.
Proof.
  split; [reflexivity|]. split; [discriminate|].
  apply (getGitBranch_key_is_whole "feature/ABC-123-fix" "" "ABC-123");
    [reflexivity | discriminate].
Defined.

(** ** Loading the configuration *)

Section Loading.

Context {modules : Modules}.

(** After a successful command the resolver gives a string that the
    [issues] question accepts. *)
Lemma getGitBranch_resolves (r : ExecResult) :
  exists ticket,
    getGitBranch (Resolved r) = Resolved (Some ticket)
    /\ validate ticket = Accepted.
Proof.
  destruct r as [out err].
  destruct (resolver_cases out err)
    as [[_ Hres] | (key & pre & rest & Hshape & _ & _ & Hres)].
  - now exists no_jira_ticket.
  - exists key. split; [exact Hres | now apply key_shaped_accepted].
Qed.

(** X5: [loadConfig] is rejected in three cases only, each time with the
    reason of the failure: the branch lookup fails; [readPkg] fails; or the
    [.czrc] beside the manifest is read and [JSON.parse] throws on its
    text.  An unreadable [.czrc] is not among them. *)
Theorem loadConfig_rejected_iff (w : World) (e : string) :
  loadConfig w = Rejected e
  <-> git w = Rejected e
      \/ ((exists r, git w = Resolved r) /\ readPkg w = Rejected e)
      \/ ((exists r, git w = Resolved r)
          /\ exists found text,
              readPkg w = Resolved (Some found)
              /\ truthy (path found) = true
              /\ readFile w (dirname (tpl (path found)) ++ "/.czrc")
                 = Resolved text
              /\ JSON_parse text = Rejected e).
Proof.
  unfold loadConfig, readFromLocalCzrc, readFromCzrc.
  destruct (git w) as [r|e0] eqn:Hgit.
  - destruct (getGitBranch_resolves r) as (ticket & -> & _). cbn [bind].
    destruct (readPkg w) as [[found|]|e1] eqn:Hpkg; cbn [bind].
    + destruct (truthy (path found)) eqn:Hpath.
      * destruct (readFile w _) as [text|e2] eqn:Hread; cbn [bind].
        -- destruct (JSON_parse text) as [obj|e3] eqn:Hparse; cbn [bind].
           ++ split; [discriminate|].
              intros [H | [[_ H] | [_ (f & t & [= <-] & _ & Hr & Hp)]]];
                try discriminate.
              rewrite Hread in Hr. injection Hr as <-. congruence.
           ++ split.
              ** intros [= <-]. right. right. split; [now exists r|].
                 now exists found, text.
              ** intros [H | [[_ H] | [_ (f & t & [= <-] & _ & Hr & Hp)]]];
                   try discriminate.
                 rewrite Hread in Hr. injection Hr as <-. congruence.
        -- split; [discriminate|].
           intros [H | [[_ H] | [_ (f & t & [= <-] & _ & Hr & _)]]];
             try discriminate.
           rewrite Hread in Hr. discriminate.
      * split; [discriminate|].
        intros [H | [[_ H] | [_ (f & t & [= <-] & Ht & _)]]];
          try discriminate. congruence.
    + split; [discriminate|].
      intros [H | [[_ H] | [_ (f & t & H & _)]]]; discriminate.
    + split.
      * intros [= <-]. right. left. split; [now exists r | reflexivity].
      * intros [H | [[_ H] | [_ (f & t & H & _)]]]; try discriminate.
        now injection H as <-.
  - cbn [getGitBranch bind]. split.
    + intros [= <-]. now left.
    + intros [H | [[(r & H) _] | [(r & H) _]]]; try discriminate.
      now injection H as <-.
Qed.

(** X6: when the branch lookup succeeds and there is no override to read,
    [loadConfig] resolves to [defaultConfig] itself and a ticket for the
    [issues] question.  That is so when [readPkg] finds no manifest, when
    the manifest found has no path, when the [.czrc] beside it cannot be
    read (the failure is recovered), and when the parsed file has no
    [config]. *)
Theorem loadConfig_defaults (w : World) (r : ExecResult) :
  git w = Resolved r ->
  (readPkg w = Resolved None
   \/ exists found,
        readPkg w = Resolved (Some found)
        /\ (truthy (path found) = false
            \/ (exists e,
                  readFile w (dirname (tpl (path found)) ++ "/.czrc")
                  = Rejected e)
            \/ (exists text obj,
                  readFile w (dirname (tpl (path found)) ++ "/.czrc")
                  = Resolved text
                  /\ JSON_parse text = Resolved obj
                  /\ prop_config obj = None))) ->
  exists ticket, loadConfig w = Resolved (Some ticket, defaultConfig).
Proof.
  intros Hgit Hnothing.
  unfold loadConfig, readFromLocalCzrc, readFromCzrc. rewrite Hgit.
  destruct (getGitBranch_resolves r) as (ticket & -> & _). cbn [bind].
  exists ticket.
  destruct Hnothing as [-> | (found & -> & Hcase)]; cbn [bind]; [reflexivity|].
  destruct Hcase as [-> | [(e & Hread) | (text & obj & Hread & Hparse & Hconfig)]];
    [reflexivity | |].
  - destruct (truthy (path found)); [|reflexivity].
    now rewrite Hread.
  - destruct (truthy (path found)); [|reflexivity].
    rewrite Hread. cbn [bind]. rewrite Hparse. cbn [bind getConfig].
    now rewrite Hconfig.
Qed.

(** X8: the only file [loadConfig] reads is the [.czrc] in the directory of
    the manifest [readPkg] finds: two worlds that agree on the branch
    lookup, on [readPkg] and on that one file load the same, whatever else
    can be read in them (a [.czrc] in the home directory, for one). *)
Theorem loadConfig_reads_local_czrc_only (w w' : World) :
  git w = git w' ->
  readPkg w = readPkg w' ->
  (forall found,
      readPkg w = Resolved (Some found) ->
      readFile w (dirname (tpl (path found)) ++ "/.czrc")
      = readFile w' (dirname (tpl (path found)) ++ "/.czrc")) ->
  loadConfig w = loadConfig w'.
Proof.
  intros Hgit Hpkg Hfile.
  unfold loadConfig, readFromLocalCzrc, readFromCzrc.
  rewrite <- Hgit, <- Hpkg.
  destruct (readPkg w) as [[found|]|e] eqn:Hfound; try reflexivity.
  destruct (getGitBranch (git w)) as [ticket|e]; [|reflexivity].
  cbn [bind].
  destruct (truthy (path found)); [|reflexivity].
  now rewrite (Hfile found eq_refl).
Qed.

(** X9: a [.czrc] that is read and is not JSON is not recovered:
    [loadConfig] is rejected with what [JSON.parse] throws, and [prompter]
    stops after registering its prompts, without a question or a commit. *)
Theorem malformed_czrc_aborts (w : World) (r : ExecResult)
        (found : PkgUp Json) (text e : string) :
  git w = Resolved r ->
  readPkg w = Resolved (Some found) ->
  truthy (path found) = true ->
  readFile w (dirname (tpl (path found)) ++ "/.czrc") = Resolved text ->
  JSON_parse text = Rejected e ->
  loadConfig w = Rejected e
  /\ prompter w = {| trace := registered; settled := Rejected e |}.
Proof.
  intros Hgit Hpkg Hpath Hread Hparse.
  assert (Hload : loadConfig w = Rejected e).
  { unfold loadConfig, readFromLocalCzrc, readFromCzrc. rewrite Hgit.
    destruct (getGitBranch_resolves r) as (ticket & -> & _). cbn [bind].
    rewrite Hpkg. cbn [bind]. rewrite Hpath, Hread. cbn [bind].
    now rewrite Hparse. }
  split; [exact Hload|].
  unfold prompter, session. now rewrite Hload.
Qed.

(** X10: whenever [loadConfig] resolves, the ticket it leaves for
    [createQuestions] is a string, it is the default of the [issues]
    question, and the validation of that question accepts it: the default
    can always be taken as it is. *)
Theorem issues_default_is_accepted (w : World) (jiraTicket : option string)
        (config : Config) :
  loadConfig w = Resolved (jiraTicket, config) ->
  exists ticket,
    jiraTicket = Some ticket
    /\ option_map q_default
         (question_named "issues" (createQuestions jiraTicket config))
       = Some (Some ticket)
    /\ validate ticket = Accepted.
Proof.
  unfold loadConfig. intros Hload.
  destruct (git w) as [r|e]; [|discriminate].
  destruct (getGitBranch_resolves r) as (ticket & Hres & Hvalid).
  rewrite Hres in Hload. cbn [bind] in Hload.
  destruct (readFromLocalCzrc w) as [o|e]; [|discriminate].
  cbn [bind] in Hload. injection Hload as <- _.
  exists ticket. now repeat split.
Qed.


End Loading.

Lemma loadConfig_rejected_iff_witness :
  loadConfig world_malformed_czrc = Rejected "SyntaxError".
Proof.
  apply (proj2 (loadConfig_rejected_iff world_malformed_czrc "SyntaxError")).
  right. right. split; [eexists; reflexivity|].
  do 2 eexists. repeat split; reflexivity.
Defined.

Lemma loadConfig_defaults_witness :
  exists ticket,
    loadConfig world_unreadable_czrc
    = Resolved (Some ticket, @defaultConfig example_modules).
Proof.
  apply (loadConfig_defaults world_unreadable_czrc
           (mkExecResult ("feature/ABC-123-fix" ++ LF) "")).
  - reflexivity.
  - right. eexists. split; [reflexivity|].
    right. left. now exists "ENOENT".
Defined.

Lemma loadConfig_reads_local_czrc_only_witness :
  readFile world_unreadable_czrc "~/.czrc" <> readFile world_home_czrc "~/.czrc"
  /\ loadConfig world_unreadable_czrc = loadConfig world_home_czrc.
Proof.
  split; [discriminate|].
  apply loadConfig_reads_local_czrc_only; [reflexivity | reflexivity |].
  intros found [= <-]. reflexivity.
Defined.

Lemma malformed_czrc_aborts_witness :
  loadConfig world_malformed_czrc = Rejected "SyntaxError"
  /\ prompter world_malformed_czrc
     = {| trace := registered; settled := Rejected "SyntaxError" |}.
Proof.
  apply (malformed_czrc_aborts world_malformed_czrc
           (mkExecResult ("feature/ABC-123-fix" ++ LF) "")
           (mkPkgUp (Some "/repo/package.json") (@None Override))
           "{ oops" "SyntaxError"); reflexivity.
Defined.

Lemma issues_default_is_accepted_witness :
  exists ticket,
    Some "ABC-123" = Some ticket
    /\ option_map q_default
         (question_named "issues"
            (@createQuestions example_modules (Some "ABC-123")
                              (@defaultConfig example_modules)))
       = Some (Some ticket)
    /\ validate ticket = Accepted.
Proof.
  apply (issues_default_is_accepted world_unreadable_czrc).
  reflexivity.
Defined.


(** ** The catalog *)

Lemma fold_max_bounds (l : list ChangeType) :
  forall a m,
    m = fold_left
          (fun maxLength type =>
             if (maxLength <? String.length (ct_name type))%nat
             then String.length (ct_name type) else maxLength) l a ->
    (a <= m)%nat
    /\ (forall t, In t l -> (String.length (ct_name t) <= m)%nat)
    /\ (m = a \/ exists t, In t l /\ String.length (ct_name t) = m).
Proof.
  induction l as [|t l IH]; intros a m Hm; cbn [fold_left] in Hm.
  - subst m. split; [lia|]. split; [intros t []|now left].
  - destruct (IH _ m Hm) as (Hge & Hall & Hat).
    assert (Ha' : (a <= m)%nat /\ (String.length (ct_name t) <= m)%nat).
    { revert Hge.
      destruct (a <? String.length (ct_name t))%nat eqn:Hlt; intros Hge.
      - apply Nat.ltb_lt in Hlt. lia.
      - apply Nat.ltb_ge in Hlt. lia. }
    split; [lia|]. split.
    + intros t' [<- | Hin]; [lia | now apply Hall].
    + destruct Hat as [Hat | (t' & Hin & Hat)].
      * revert Hat. destruct (a <? String.length (ct_name t))%nat; intros Hat.
        -- right. exists t. split; [now left | now symmetry].
        -- now left.
      * right. exists t'. split; [now right | exact Hat].
Qed.

Section Catalog.

Context {modules : Modules}.

(** X12: every display name of the catalog is made with one width, the
    greatest length of a type name: no name is longer, some name has that
    length unless the width is 0, and each display name is the padded name,
    two spaces, the glyph, two spaces and the description. *)
Theorem getEmojiChoices_width (config : Config) :
  exists width,
    (forall t, In t (types config) -> (String.length (ct_name t) <= width)%nat)
    /\ (width = 0
        \/ exists t, In t (types config) /\ String.length (ct_name t) = width)
    /\ map ce_name (getEmojiChoices config)
       = map (fun t => pad (ct_name t) width ++ "  " ++ ct_emoji t ++ "  "
                       ++ ct_description t)
             (types config).
Proof.
  unfold getEmojiChoices.
  destruct (fold_max_bounds (types config) 0 _ eq_refl) as (_ & Hall & Hat).
  eexists. split; [exact Hall|]. split; [exact Hat|].
  rewrite map_map. reflexivity.
Qed.

(** X13: when [pad] fills a text up to the length asked and leaves a longer
    text as it is, the labels of all the choices of a catalog have the same
    length before the two spaces and the glyph: the glyphs are aligned. *)
Theorem getEmojiChoices_aligned (config : Config) :
  (forall text n,
      String.length (pad text n) = Nat.max (String.length text) n) ->
  exists width,
    forall choice,
      In choice (getEmojiChoices config) ->
      exists label t,
        In t (types config)
        /\ ce_name choice
           = label ++ "  " ++ ct_emoji t ++ "  " ++ ct_description t
        /\ String.length label = width.
Proof.
  intros Hpad. unfold getEmojiChoices.
  destruct (fold_max_bounds (types config) 0 _ eq_refl) as (_ & Hall & _).
  match type of Hall with
  | forall t, _ -> (_ <= ?m)%nat => set (width := m) in *; exists width
  end.
  intros choice Hin.
  apply in_map_iff in Hin as (t & <- & Hin).
  exists (pad (ct_name t) width), t. cbn [ce_name].
  split; [exact Hin|]. split; [reflexivity|].
  rewrite Hpad. specialize (Hall t Hin). lia.
Qed.

(** X14: the head line made for a choice of the catalog.  With [symbol] the
    glyph comes with the space the catalog adds, so two spaces follow it;
    without, the code of the type stands for the glyph.  Outside
    conventional mode two spaces come before the subject. *)
Theorem head_of_a_choice (config : Config) (i : nat) (t : ChangeType) :
  nth_error (types config) i = Some t ->
  exists choice,
    nth_error (getEmojiChoices config) i = Some choice
    /\ forall scope issues workflow subject time comment body,
        formatHead (mkAnswers (ce_value choice) scope issues workflow
                              (Some subject) time comment body) config
        = match conventional config, symbol config with
          | true, true =>
              ct_name t ++ formatScope scope ++ ": " ++ ct_emoji t
              ++ "  " ++ subject
          | true, false =>
              ct_name t ++ formatScope scope ++ ": " ++ ct_code t
              ++ " " ++ subject
          | false, true =>
              ct_emoji t ++ "  " ++ formatScope scope ++ "  " ++ subject
          | false, false =>
              ct_code t ++ " " ++ formatScope scope ++ "  " ++ subject
          end.
Proof.
  intros Ht. unfold getEmojiChoices. rewrite nth_error_map, Ht.
  eexists. split; [reflexivity|].
  intros scope issues workflow subject time comment body.
  unfold formatHead.
  cbn [a_type a_scope a_subject ce_value emoji name tpl].
  destruct (conventional config), (symbol config);
    now rewrite !append_assoc.
Qed.

End Catalog.

Lemma pad_right_length (text : string) (n : nat) :
  String.length (pad_right text n) = Nat.max (String.length text) n.
Proof.
  unfold pad_right. rewrite length_append.
  assert (Hspaces : forall k, String.length (spaces k) = k).
  { induction k as [|k IH]; cbn [spaces append String.length];
      [reflexivity | now rewrite IH]. }
  rewrite Hspaces. lia.
Qed.

Lemma getEmojiChoices_aligned_witness :
  exists width,
    forall choice,
      In choice (@getEmojiChoices example_modules (example_config false)) ->
      exists label t,
        In t (types (example_config false))
        /\ ce_name choice
           = label ++ "  " ++ ct_emoji t ++ "  " ++ ct_description t
        /\ String.length label = width.
Proof.
  apply (@getEmojiChoices_aligned example_modules (example_config false)).
  exact pad_right_length.
Defined.

Lemma head_of_a_choice_witness :
  exists choice,
    nth_error (@getEmojiChoices example_modules (example_config true)) 0
      = Some choice
    /\ formatHead (mkAnswers (ce_value choice) (Some "api") None None
                             (Some "add x") None None None)
                  (example_config true)
       = "feature(api): 🌟  add x".
Proof.
  destruct (@head_of_a_choice example_modules (example_config true) 0 feature
              eq_refl) as (choice & Hchoice & Hhead).
  exists choice. split; [exact Hchoice|].
  rewrite Hhead. reflexivity.
Defined.

(** ** The questions *)

Lemma includes_In (xs : list string) (x : string) :
  includes xs x = true <-> In x xs.
Proof.
  unfold includes. rewrite existsb_exists. split.
  - intros (y & Hin & Heq). apply String.eqb_eq in Heq. now subst y.
  - intros Hin. exists x. split; [exact Hin | apply String.eqb_refl].
Qed.

Section Asking.

Context {modules : Modules}.

(** X15: [skipQuestions] can switch off the [scope] and the [body]
    questions and no other: a question is not asked exactly when it is one
    of these two and its name is listed.  Listing [issues], [time] or any
    other name changes nothing. *)
Theorem skipQuestions_reach (with_default : bool) (jiraTicket : option string)
        (config : Config) (q : Question) :
  In q (createQuestions_ with_default jiraTicket config) ->
  (q_when q = Some false
   <-> (q_name q = "scope" \/ q_name q = "body")
       /\ In (q_name q) (skipQuestions config)).
Proof.
  assert (Hwhen : forall x,
             Some (negb (includes (skipQuestions config) x)) = Some false
             <-> In x (skipQuestions config)).
  { intros x. rewrite <- includes_In.
    destruct (includes (skipQuestions config) x); split;
      try reflexivity; discriminate. }
  cbn [createQuestions_ In].
  intros [<- | [<- | [<- | [<- | [<- | [<- | [<- | [<- | []]]]]]]]];
    cbn [q_when q_name question].
  2: { rewrite Hwhen. split; [intros H; split; [now left | exact H] | tauto]. }
  7: { rewrite Hwhen. split; [intros H; split; [now right | exact H] | tauto]. }
  all: split; [discriminate | intros [[H | H] _]; discriminate].
Qed.

(** X16: of the eight questions, only [issues] is validated, only [subject]
    and [body] transform their answer, and only [type] and [workflow]
    search a collection: [time], [comment] and [scope] go into the answers
    as they are typed. *)
Theorem callbacks_of_the_questions (with_default : bool)
        (jiraTicket : option string) (config : Config) (q : Question) :
  In q (createQuestions_ with_default jiraTicket config) ->
  (q_validate q <> None <-> q_name q = "issues")
  /\ (q_filter q <> None <-> q_name q = "subject" \/ q_name q = "body")
  /\ (q_source q <> None <-> q_name q = "type" \/ q_name q = "workflow").
Proof.
  cbn [createQuestions_ In].
  intros [<- | [<- | [<- | [<- | [<- | [<- | [<- | [<- | []]]]]]]]];
    cbn [q_validate q_filter q_source q_name question];
    repeat split; try discriminate; try congruence;
    try (intros _; now left); try (intros _; now right);
    try (intros [H | H]; discriminate).
Qed.

(** X17: every session of either variant goes one of these ways: it is
    rejected before any question; it puts its questions once and is
    rejected there, with no commit, because the prompt engine rejects or
    because [format] throws on the answers; or it puts its questions once,
    calls [commit] once, after them, with the message [format] returns,
    and settles as that call does. *)
Theorem sessions_have_a_shape (w : World) :
  run_shape w (prompter w) /\ run_shape w (prompter_000 w).
Proof.
  assert (Hshape : forall loaded questions_of,
             run_shape w (session w loaded questions_of)).
  { intros [[jiraTicket config]|e] questions_of; unfold session, run_shape.
    - destruct (cz_prompt w (questions_of jiraTicket config))
        as [answers|e] eqn:Hprompt.
      + destruct (format w answers) as [message|e] eqn:Hformat;
          cbn [trace settled].
        * right. right. right.
          exists (questions_of jiraTicket config), answers, message.
          now repeat split.
        * right. right. left.
          exists (questions_of jiraTicket config), answers, e.
          now repeat split.
      + cbn [trace settled]. right. left.
        exists (questions_of jiraTicket config), e. now repeat split.
    - left. cbn [trace settled]. split; [reflexivity | now exists e]. }
  split; apply Hshape.
Qed.

End Asking.

(** Without a terminal the answers are collected and [truncate] throws:
    the session ends rejected after the prompt, without a commit. *)
Example session_without_terminal :
  exists questions,
    prompter world_not_a_terminal
    = {| trace := [Register "autocomplete"; Register "maxlength-input";
                   Prompt questions];
         settled := Rejected "TypeError: Expected `columns` to be a number" |}.
Proof.
  eexists. reflexivity.
Qed.

(** With one the message is committed. *)
Example session_with_terminal :
  exists questions,
    prompter world_plain
    = {| trace := [Register "autocomplete"; Register "maxlength-input";
                   Prompt questions; Commit "add x"];
         settled := Resolved tt |}.
Proof.
  eexists. reflexivity.
Qed.

Lemma skipQuestions_reach_witness :
  q_when
    (nth 7 (@createQuestions_ example_modules true None
              (mkConfig [feature] [] None false ["issues"; "body"] 75 false
                        None None))
         (question "" "" ""))
  = Some false.
Proof.
  assert (Hin : In (nth 7 (@createQuestions_ example_modules true None
                              (mkConfig [feature] [] None false
                                        ["issues"; "body"] 75 false None None))
                          (question "" "" ""))
                     (@createQuestions_ example_modules true None
                        (mkConfig [feature] [] None false
                                  ["issues"; "body"] 75 false None None))).
  { apply nth_In. cbn [createQuestions_ List.length]. lia. }
  apply (proj2 (@skipQuestions_reach example_modules true None _ _ Hin)).
  split; [right; reflexivity | right; left; reflexivity].
Defined.

Lemma callbacks_of_the_questions_witness :
  q_name
    (nth 2 (@createQuestions_ example_modules true None (example_config false))
         (question "" "" ""))
  = "issues"
  /\ q_validate
       (nth 2 (@createQuestions_ example_modules true None
                 (example_config false))
            (question "" "" ""))
     <> None.
Proof.
  split; [reflexivity|].
  assert (Hin : In (nth 2 (@createQuestions_ example_modules true None
                              (example_config false))
                          (question "" "" ""))
                     (@createQuestions_ example_modules true None
                        (example_config false))).
  { apply nth_In. cbn [createQuestions_ List.length]. lia. }
  apply (proj2 (proj1 (@callbacks_of_the_questions example_modules true None
                         _ _ Hin))).
  reflexivity.
Defined.

(** ** The final message *)

Lemma append_empty_r (s : string) : s ++ "" = s.
Proof.
  induction s as [|c s IH]; cbn [append]; [reflexivity | now rewrite IH].
Qed.

Lemma strip_prefix_sound (token : string) :
  forall s rest, strip_prefix token s = Some rest -> s = token ++ rest.
Proof.
  induction token as [|c token IH]; intros s rest; cbn [strip_prefix append].
  - now intros [= ->].
  - destruct s as [|d s]; [discriminate|].
    destruct (Ascii.eqb c d) eqn:Hcd; [|discriminate].
    apply Ascii.eqb_eq in Hcd. subst d.
    intros H. now rewrite (IH s rest H).
Qed.

Lemma strip_prefix_complete (token rest : string) :
  strip_prefix token (token ++ rest) = Some rest.
Proof.
  induction token as [|c token IH]; cbn [strip_prefix append]; [reflexivity|].
  now rewrite Ascii.eqb_refl.
Qed.

Lemma strip_first_sound (tokens : list string) (s rest : string) :
  strip_first tokens s = Some rest ->
  exists token, In token tokens /\ s = token ++ rest.
Proof.
  induction tokens as [|token tokens IH]; cbn [strip_first]; [discriminate|].
  destruct (strip_prefix token s) as [r|] eqn:Hstrip.
  - intros [= ->]. exists token. split; [now left|].
    now apply strip_prefix_sound.
  - intros H. destruct (IH H) as (t & Hin & Hs).
    exists t. split; [now right | exact Hs].
Qed.

Lemma strip_first_complete (tokens : list string) (token rest : string) :
  In token tokens -> strip_first tokens (token ++ rest) <> None.
Proof.
  induction tokens as [|t tokens IH]; cbn [strip_first In]; [tauto|].
  intros [-> | Hin].
  - now rewrite strip_prefix_complete.
  - destruct (strip_prefix t (token ++ rest)); [discriminate | now apply IH].
Qed.

(** A text that starts with a token still does when it goes on. *)
Lemma strip_first_grows (tokens : list string) (u x : string) :
  strip_first tokens u <> None -> strip_first tokens (u ++ x) <> None.
Proof.
  destruct (strip_first tokens u) as [rest|] eqn:Hu; [|congruence].
  intros _. destruct (strip_first_sound _ _ _ Hu) as (token & Hin & ->).
  rewrite append_assoc. now apply strip_first_complete.
Qed.

Lemma strip_first_empty (tokens : list string) :
  Forall (fun token => token <> "") tokens -> strip_first tokens "" = None.
Proof.
  induction 1 as [|token tokens Htoken _ IH]; cbn [strip_first]; [reflexivity|].
  destruct token; [now elim Htoken | exact IH].
Qed.

Lemma strip_all_suffix (tokens : list string) :
  forall fuel s, exists x, s = x ++ strip_all tokens fuel s.
Proof.
  induction fuel as [|fuel IH]; intros s; cbn [strip_all]; [now exists ""|].
  destruct (strip_first tokens s) as [rest|] eqn:Hs; [|now exists ""].
  destruct (strip_first_sound _ _ _ Hs) as (token & _ & ->).
  destruct (IH rest) as (x & Hx).
  exists (token ++ x). rewrite append_assoc. now rewrite <- Hx.
Qed.

(** Fuel of the length of the text is enough: no token is left at the
    start. *)
Lemma strip_all_done (tokens : list string) :
  Forall (fun token => token <> "") tokens ->
  forall fuel s,
    (String.length s <= fuel)%nat ->
    strip_first tokens (strip_all tokens fuel s) = None.
Proof.
  intros Htokens.
  induction fuel as [|fuel IH]; intros s Hlen; cbn [strip_all].
  - destruct s; [now apply strip_first_empty | cbn [String.length] in Hlen; lia].
  - destruct (strip_first tokens s) as [rest|] eqn:Hs; [|exact Hs].
    apply IH.
    destruct (strip_first_sound _ _ _ Hs) as (token & Hin & ->).
    rewrite length_append in Hlen.
    rewrite Forall_forall in Htokens.
    pose proof (nonempty_length token (Htokens token Hin)). lia.
Qed.

Lemma strip_all_fixed (tokens : list string) (fuel : nat) (s : string) :
  strip_first tokens s = None -> strip_all tokens fuel s = s.
Proof.
  intros Hs. destruct fuel; cbn [strip_all]; [reflexivity | now rewrite Hs].
Qed.

Lemma reverse_append (a b : string) :
  reverse (a ++ b) = reverse b ++ reverse a.
Proof.
  induction a as [|c a IH]; cbn [append reverse].
  - now rewrite append_empty_r.
  - now rewrite IH, append_assoc.
Qed.

Lemma reverse_involutive (s : string) : reverse (reverse s) = s.
Proof.
  induction s as [|c s IH]; cbn [reverse]; [reflexivity|].
  rewrite reverse_append, IH. reflexivity.
Qed.

Lemma length_reverse (s : string) :
  String.length (reverse s) = String.length s.
Proof.
  induction s as [|c s IH]; cbn [reverse String.length]; [reflexivity|].
  rewrite length_append, IH. cbn [String.length]. lia.
Qed.

Lemma last_char_reverse (s : string) :
  last_char s = first_char (reverse s).
Proof.
  induction s as [|c s IH]; [reflexivity|].
  cbn [reverse]. destruct s as [|d s]; [reflexivity|].
  change (last_char (String c (String d s))) with (last_char (String d s)).
  rewrite IH.
  destruct (reverse (String d s)) as [|e r] eqn:Hrev; [|reflexivity].
  pose proof (length_reverse (String d s)) as Hlen.
  rewrite Hrev in Hlen. discriminate.
Qed.

Lemma white_space_nonempty :
  Forall (fun token => token <> "") white_space
  /\ Forall (fun token => token <> "") (map reverse white_space).
Proof.
  split; vm_compute; repeat constructor; discriminate.
Qed.

(** White space below 128 is among the tokens, read either way. *)
Lemma space_is_white_space (c : ascii) (rest : string) :
  is_space c = true ->
  strip_first white_space (String c rest) <> None
  /\ strip_first (map reverse white_space) (String c rest) <> None.
Proof.
  intros Hc.
  destruct c as [[] [] [] [] [] [] [] []];
    vm_compute in Hc; try discriminate Hc;
    split; vm_compute; discriminate.
Qed.

(** What [trim] returns has no white space at either end, and trimming it
    again changes nothing. *)
Lemma trim_is_trimmed (s : string) :
  space_at_edge (trim s) = false /\ trim (trim s) = trim s.
Proof.
  destruct white_space_nonempty as [Hws Hws'].
  unfold trim.
  set (t := trim_start s).
  assert (Ht : strip_first white_space t = None).
  { unfold t, trim_start. now apply strip_all_done. }
  set (v := strip_all (map reverse white_space) (String.length t) (reverse t)).
  assert (Hv : strip_first (map reverse white_space) v = None).
  { unfold v. apply strip_all_done; [exact Hws'|]. now rewrite length_reverse. }
  assert (Hend : trim_end t = reverse v) by reflexivity.
  rewrite Hend.
  assert (Hu : strip_first white_space (reverse v) = None).
  { destruct (strip_all_suffix (map reverse white_space) (String.length t)
                               (reverse t)) as (x & Hx).
    fold v in Hx.
    assert (Hsplit : t = reverse v ++ reverse x).
    { rewrite <- reverse_append, <- Hx. now rewrite reverse_involutive. }
    destruct (strip_first white_space (reverse v)) as [r|] eqn:Hr;
      [|reflexivity].
    exfalso.
    apply (strip_first_grows white_space (reverse v) (reverse x));
      [congruence|].
    now rewrite <- Hsplit. }
  split.
  - unfold space_at_edge.
    destruct (first_char (reverse v)) as [c1|] eqn:H1; [|reflexivity].
    destruct (last_char (reverse v)) as [c2|] eqn:H2; [|reflexivity].
    apply orb_false_iff. split.
    + destruct (is_space c1) eqn:Hc1; [|reflexivity].
      destruct (reverse v) as [|c r]; [discriminate|].
      injection H1 as ->.
      now elim (proj1 (space_is_white_space c1 r Hc1)).
    + rewrite last_char_reverse, reverse_involutive in H2.
      destruct (is_space c2) eqn:Hc2; [|reflexivity].
      destruct v as [|c r]; [discriminate|].
      injection H2 as ->.
      now elim (proj2 (space_is_white_space c2 r Hc2)).
  - assert (Hstart : trim_start (reverse v) = reverse v).
    { unfold trim_start. now apply strip_all_fixed. }
    rewrite Hstart. unfold trim_end.
    rewrite reverse_involutive. now rewrite strip_all_fixed.
Qed.

Section Message.

Context {modules : Modules}.

(** X18: whatever [truncate] and [wrap] return, a message [format]
    returns has no white space at its start or at its end, and trimming it
    again changes nothing. *)
Theorem format_is_trimmed (w : World) (answers : Answers) (message : string) :
  format w answers = Resolved message ->
  space_at_edge message = false /\ trim message = message.
Proof.
  unfold format.
  destruct (truncate (a_subject answers) (columns w)) as [head|e];
    [|discriminate].
  cbn [bind]. destruct (wrap _ (columns w)) as [body|e]; [|discriminate].
  cbn [bind]. intros [= <-]. apply trim_is_trimmed.
Qed.

(** X19: [format] throws what [truncate] throws, and what [wrap] throws
    after [truncate] has returned.  When both return, the message is the
    head when the wrapped body is empty, the body when the head is empty,
    and otherwise the head, an empty line and the body; all trimmed.  So
    when there is no body answer and [wrap] gives the empty text for the
    empty text, the message is the trimmed head, with no empty line after
    it. *)
Theorem format_parts (w : World) (answers : Answers) :
  let wrapped :=
    wrap (match a_body answers with
          | Some (String c s) => String c s
          | _ => ""
          end) (columns w) in
  (forall e,
      truncate (a_subject answers) (columns w) = Rejected e ->
      format w answers = Rejected e)
  /\ (forall head e,
        truncate (a_subject answers) (columns w) = Resolved head ->
        wrapped = Rejected e ->
        format w answers = Rejected e)
  /\ (forall head body,
        truncate (a_subject answers) (columns w) = Resolved head ->
        wrapped = Resolved body ->
        format w answers
        = Resolved (trim (match head, body with
                          | "", _ => body
                          | _, "" => head
                          | _, _ => head ++ LF ++ LF ++ body
                          end)))
  /\ (forall head,
        truncate (a_subject answers) (columns w) = Resolved head ->
        truthy (a_body answers) = false ->
        wrap "" (columns w) = Resolved "" ->
        format w answers = Resolved (trim head)).
Proof.
  intros wrapped.
  assert (Hwrapped : wrap (if truthy (a_body answers)
                           then tpl (a_body answers) else "") (columns w)
                     = wrapped).
  { unfold wrapped. now destruct (a_body answers) as [[|c s]|]. }
  assert (Hboth : forall head body,
             truncate (a_subject answers) (columns w) = Resolved head ->
             wrapped = Resolved body ->
             format w answers
             = Resolved (trim (match head, body with
                               | "", _ => body
                               | _, "" => head
                               | _, _ => head ++ LF ++ LF ++ body
                               end))).
  { intros head body Hhead Hbody. unfold format.
    rewrite Hhead, Hwrapped, Hbody. cbn [bind].
    destruct head as [|c1 h], body as [|c2 b]; reflexivity. }
  split; [|split; [|split]].
  - intros e He. unfold format. now rewrite He.
  - intros head e Hhead He. unfold format.
    rewrite Hhead, Hwrapped, He. reflexivity.
  - exact Hboth.
  - intros head Hhead Hnone Hwrap.
    assert (Hbody : wrapped = Resolved "").
    { unfold wrapped. destruct (a_body answers) as [[|c s]|];
        [exact Hwrap | discriminate | exact Hwrap]. }
    rewrite (Hboth head "" Hhead Hbody). now destruct head.
Qed.

End Message.

Lemma format_is_trimmed_witness :
  format world_plain other_answers = Resolved "add x"
  /\ space_at_edge "add x" = false
  /\ trim "add x" = "add x".
Proof.
  split; [reflexivity|].
  apply (@format_is_trimmed example_modules world_plain other_answers "add x").
  reflexivity.
Defined.

Lemma format_parts_witness :
  @truncate example_modules (a_subject other_answers) (columns world_plain)
    = Resolved "add x"
  /\ truthy (a_body other_answers) = false
  /\ @wrap example_modules "" (columns world_plain) = Resolved ""
  /\ format world_plain other_answers = Resolved (trim "add x").
Proof.
  split; [reflexivity|]. split; [reflexivity|]. split; [reflexivity|].
  destruct (@format_parts example_modules world_plain other_answers)
    as (_ & _ & _ & Hhead).
  apply (Hhead "add x"); reflexivity.
Defined.

(** ** More on the answer formatter and on the configuration *)

(** X20: for [formatBody], a workflow that is [undefined], empty or the
    sentinel [[NONE]] is the same thing, and so is a time or a comment that
    is [undefined] or empty: none of them leaves a token in the body. *)
Theorem formatBody_blank_fields (type : TypeValue)
        (scope issues subject body : option string) (config : Config) :
  forall workflow time comment,
    In workflow [None; Some ""; Some "[NONE]"] ->
    In time [None; Some ""] ->
    In comment [None; Some ""] ->
    formatBody (mkAnswers type scope issues workflow subject time comment body)
               config
    = formatBody (mkAnswers type scope issues None subject None None body)
                 config.
Proof.
  intros workflow time comment Hw Ht Hc.
  cbn [In] in Hw, Ht, Hc.
  destruct Hw as [<- | [<- | [<- | []]]];
    destruct Ht as [<- | [<- | []]];
    destruct Hc as [<- | [<- | []]]; reflexivity.
Qed.

Lemma formatBody_blank_fields_witness :
  formatBody plain_answers (example_config false)
  = formatBody (mkAnswers feature_value None (Some "ABC-1") None
                          (Some "add x") None None (Some "fix bug"))
               (example_config false).
Proof.
  apply (formatBody_blank_fields feature_value None (Some "ABC-1")
           (Some "add x") (Some "fix bug") (example_config false)
           (Some "[NONE]") None (Some ""));
    cbn [In]; tauto.
Defined.

(** X21: spreading an override over a configuration is idempotent, and an
    override that is missing or sets no key gives the configuration back:
    every key keeps its default unless the override sets it. *)
Theorem spread_laws (base : Config) (config : option Override) :
  spread (spread base config) config = spread base config
  /\ spread base None = base
  /\ spread base (Some empty_override) = base.
Proof.
  split; [|split].
  - destruct config as [[ot ow op os ok om oc osc oq]|]; [|reflexivity].
    unfold spread.
    cbn [o_types o_workflows o_projectDir o_symbol o_skipQuestions
         o_subjectMaxLength o_conventional o_scopes o_questions
         types workflows projectDir symbol skipQuestions subjectMaxLength
         conventional scopes questions].
    destruct ot, ow, op, os, ok, om, oc, osc, oq; reflexivity.
  - reflexivity.
  - now destruct base.
Qed.

(** ** Further cases *)

Lemma no_upper_app (pre post : string) :
  no_upper (pre ++ post) = no_upper pre && no_upper post.
Proof.
  induction pre as [|c pre IH]; cbn [append no_upper]; [reflexivity|].
  now rewrite IH, andb_assoc.
Qed.

(** X4: a branch name without an upper-case letter never gives a ticket:
    the resolver answers the sentinel. *)
Theorem getGitBranch_lower_case (out err : string) :
  no_upper out = true ->
  getGitBranch (Resolved (mkExecResult out err))
  = Resolved (Some "no jira ticket").
Proof.
  intros Hlow.
  destruct (resolver_cases out err)
    as [[_ Hres] | (key & pre & rest & Hshape & Hout & _ & _)];
    [exact Hres|].
  destruct Hshape as (u & k & d & -> & Hu & _).
  rewrite Hout, no_upper_app in Hlow. cbn [append no_upper] in Hlow.
  rewrite Hu in Hlow. cbn [negb andb] in Hlow.
  now rewrite andb_false_r in Hlow.
Qed.

Lemma getGitBranch_lower_case_witness :
  getGitBranch (Resolved (mkExecResult ("fix/abc-123" ++ LF) ""))
  = Resolved (Some "no jira ticket").
Proof.
  apply getGitBranch_lower_case. reflexivity.
Defined.

Section Override.

Context {modules : Modules}.

(** X7: when the branch lookup succeeds and the [.czrc] beside the
    manifest is read, parsed and has a [config], [loadConfig] resolves to
    [defaultConfig] with the keys of that [config] spread over it. *)
Theorem loadConfig_override (w : World) (r : ExecResult)
        (found : PkgUp Json) (text : string) (obj : Json) (o : Override) :
  git w = Resolved r ->
  readPkg w = Resolved (Some found) ->
  truthy (path found) = true ->
  readFile w (dirname (tpl (path found)) ++ "/.czrc") = Resolved text ->
  JSON_parse text = Resolved obj ->
  prop_config obj = Some o ->
  exists ticket,
    loadConfig w = Resolved (Some ticket, spread defaultConfig (Some o)).
Proof.
  intros Hgit Hpkg Hpath Hread Hparse Hconfig.
  unfold loadConfig, readFromLocalCzrc, readFromCzrc. rewrite Hgit.
  destruct (getGitBranch_resolves r) as (ticket & -> & _). cbn [bind].
  exists ticket.
  rewrite Hpkg. cbn [bind]. rewrite Hpath, Hread. cbn [bind].
  rewrite Hparse. cbn [bind getConfig]. now rewrite Hconfig.
Qed.

(** X22: nothing reads [projectDir]: the questions made for a
    configuration, with their callbacks, are the same whatever that key
    holds. *)
Theorem projectDir_is_never_read (with_default : bool)
        (jiraTicket : option string) (config : Config) (dir : option string) :
  createQuestions_ with_default jiraTicket (with_projectDir config dir)
  = createQuestions_ with_default jiraTicket config.
Proof.
  destruct config. reflexivity.
Qed.

End Override.

Lemma loadConfig_override_witness :
  exists ticket,
    loadConfig world_without_types
    = Resolved (Some ticket,
                spread (@defaultConfig example_modules) (Some no_types)).
Proof.
  apply (loadConfig_override world_without_types
           (mkExecResult ("main" ++ LF) "")
           (mkPkgUp (Some "/repo/package.json") (@None Override))
           czrc_no_types (Some no_types) no_types); reflexivity.
Defined.

Lemma getEmojiChoices_width_witness :
  exists width,
    (forall t, In t [feature] -> (String.length (ct_name t) <= width)%nat)
    /\ (width = 0
        \/ exists t, In t [feature] /\ String.length (ct_name t) = width)
    /\ map ce_name (@getEmojiChoices example_modules (example_config false))
       = map (fun t => pad_right (ct_name t) width ++ "  " ++ ct_emoji t
                       ++ "  " ++ ct_description t)
             [feature].
Proof.
  exact (@getEmojiChoices_width example_modules (example_config false)).
Defined.
